(** * The LaTeX normalisation pipeline of [python-scripte/suchen_ersetzen.py]

    A shallow embedding of [Config] and [LatexProcessor]: Python strings are
    lists of Unicode code points, the [str] built-ins and the fragment of
    [re] that the script uses are executable functions, the logging calls
    and the file system are threaded as explicit state. *)

From Stdlib Require Import String Ascii.
From Stdlib Require Import List NArith ZArith Bool Lia Arith.
Import ListNotations.

Set Implicit Arguments.

(** ** Python [str] *)

Module PyStr.

(** A character is a Unicode code point, a [str] a sequence of them. *)
Definition char := N.
Definition str := list char.

(** String literals of the source (all of them ASCII). *)
Definition lit (s : string) : str := map N_of_ascii (list_ascii_of_string s).

Definition LF : char := 10%N.
Definition CR : char := 13%N.
Definition nl : str := [LF].

Definition char_in (c : char) (l : list char) : bool := existsb (N.eqb c) l.

(** The line boundaries of [str.splitlines]. *)
Definition linebreaks : list char :=
  [10; 11; 12; 13; 28; 29; 30; 133; 8232; 8233]%N.
Definition is_linebreak (c : char) : bool := char_in c linebreaks.

(** The characters for which [str.isspace] holds: what [str.strip] removes
    and what [\s] matches in a [str] pattern. *)
Definition whitespace : list char :=
  [9; 10; 11; 12; 13; 28; 29; 30; 31; 32; 133; 160; 5760;
   8192; 8193; 8194; 8195; 8196; 8197; 8198; 8199; 8200; 8201; 8202;
   8232; 8233; 8239; 8287; 12288]%N.
Definition is_space (c : char) : bool := char_in c whitespace.

(** [s.startswith(p)] *)
Fixpoint startswith (p s : str) : bool :=
  match p, s with
  | [], _ => true
  | _ :: _, [] => false
  | a :: p', b :: s' => N.eqb a b && startswith p' s'
  end.

(** [sub in s] *)
Fixpoint contains (sub s : str) : bool :=
  startswith sub s ||
  match s with
  | [] => false
  | _ :: s' => contains sub s'
  end.

(** [s.count(sub)]: occurrences from left to right that do not overlap;
    [skip] is the number of characters of the last occurrence still to pass. *)
Fixpoint count_go (sub s : str) (skip : nat) : nat :=
  match s with
  | [] => 0
  | _ :: s' =>
      match skip with
      | S n => count_go sub s' n
      | O => if startswith sub s
             then S (count_go sub s' (length sub - 1))
             else count_go sub s' 0
      end
  end.

Definition count (sub s : str) : nat :=
  match sub with
  | [] => S (length s)
  | _ :: _ => count_go sub s 0
  end.

(** [s.replace(old, new)] *)
Fixpoint replace_go (old new s : str) (skip : nat) : str :=
  match s with
  | [] => []
  | c :: s' =>
      match skip with
      | S n => replace_go old new s' n
      | O => if startswith old s
             then new ++ replace_go old new s' (length old - 1)
             else c :: replace_go old new s' 0
      end
  end.

Definition replace (old new s : str) : str :=
  match old with
  | [] => new ++ flat_map (fun c => c :: new) s
  | _ :: _ => replace_go old new s 0
  end.

(** [s.splitlines()]: a line ends at a line boundary, CR LF counts as one,
    and no empty line is reported after the last boundary. *)
Fixpoint splitlines (s : str) : list str :=
  match s with
  | [] => []
  | c :: s' =>
      if is_linebreak c then
        match s' with
        | d :: s'' =>
            if N.eqb c CR && N.eqb d LF
            then [] :: splitlines s''
            else [] :: splitlines s'
        | [] => [[]]
        end
      else
        match splitlines s' with
        | [] => [[c]]
        | l :: ls => (c :: l) :: ls
        end
  end.

(** [sep.join(parts)] *)
Fixpoint join (sep : str) (parts : list str) : str :=
  match parts with
  | [] => []
  | [p] => p
  | p :: ps => p ++ sep ++ join sep ps
  end.

(** [s.lstrip()], [s.rstrip()], [s.strip()] *)
Fixpoint lstrip (s : str) : str :=
  match s with
  | [] => []
  | c :: s' => if is_space c then lstrip s' else s
  end.

Fixpoint rstrip (s : str) : str :=
  match s with
  | [] => []
  | c :: s' =>
      match rstrip s' with
      | [] => if is_space c then [] else [c]
      | r => c :: r
      end
  end.

Definition strip (s : str) : str := rstrip (lstrip s).

(** [s.endswith(p)] *)
Definition endswith (p s : str) : bool := startswith (rev p) (rev s).

(** [c * n] for a one-character string [c] and an [int] [n]. *)
Definition times (s : str) (n : Z) : str := concat (repeat s (Z.to_nat n)).

End PyStr.

Import PyStr.

(** ** The fragment of Python's [re] that the script uses *)

Module Re.

(** Sets of characters: [.] (with or without [re.DOTALL]), [\s] and
    negated classes such as [[^}]]. *)
Inductive cset : Type :=
| CAny (dotall : bool)
| CSpace
| CNotIn (l : list char).

Definition cset_mem (cs : cset) (c : char) : bool :=
  match cs with
  | CAny dotall => dotall || negb (N.eqb c LF)
  | CSpace => is_space c
  | CNotIn l => negb (char_in c l)
  end.

(** Patterns.  A repetition is always over one set of characters in the
    script's patterns; [greedy = false] is the lazy form [*?]. *)
Inductive regex : Type :=
| RLit (w : str)
| RSet (cs : cset)
| RStar (greedy : bool) (cs : cset)
| RSeq (r1 r2 : regex)
| RAlt (r1 r2 : regex)
| ROpt (r : regex)
| RGroup (n : nat) (r : regex).

(** Captured groups, the latest binding first. *)
Definition groups := list (nat * str).

Fixpoint group (n : nat) (g : groups) : option str :=
  match g with
  | [] => None
  | (m, v) :: g' => if Nat.eqb n m then Some v else group n g'
  end.

(** The text consumed between the suffix [s] and its suffix [s']. *)
Definition consumed (s s' : str) : str := firstn (length s - length s') s.

Fixpoint strip_prefix (w s : str) : option str :=
  match w, s with
  | [], _ => Some s
  | _ :: _, [] => None
  | a :: w', b :: s' => if N.eqb a b then strip_prefix w' s' else None
  end.

Section Matcher.

Variable A : Type.

(** [cs*] and [cs*?] followed by the continuation [k]: the greedy form takes
    as many characters as it can and gives them back one by one, the lazy
    form tries [k] first. *)
Fixpoint star (greedy : bool) (cs : cset) (s : str) (g : groups)
    (k : str -> groups -> option A) : option A :=
  if greedy then
    match s with
    | c :: s' =>
        if cset_mem cs c then
          match star greedy cs s' g k with
          | Some x => Some x
          | None => k s g
          end
        else k s g
    | [] => k s g
    end
  else
    match k s g with
    | Some x => Some x
    | None =>
        match s with
        | c :: s' => if cset_mem cs c then star greedy cs s' g k else None
        | [] => None
        end
    end.

(** The backtracking matcher: the alternatives are tried in the order of
    the pattern and the first one whose continuation succeeds is taken. *)
Fixpoint rmatch (r : regex) (s : str) (g : groups)
    (k : str -> groups -> option A) : option A :=
  match r with
  | RLit w =>
      match strip_prefix w s with
      | Some s' => k s' g
      | None => None
      end
  | RSet cs =>
      match s with
      | c :: s' => if cset_mem cs c then k s' g else None
      | [] => None
      end
  | RStar greedy cs => star greedy cs s g k
  | RSeq r1 r2 => rmatch r1 s g (fun s' g' => rmatch r2 s' g' k)
  | RAlt r1 r2 =>
      match rmatch r1 s g k with
      | Some x => Some x
      | None => rmatch r2 s g k
      end
  | ROpt r1 =>
      match rmatch r1 s g k with
      | Some x => Some x
      | None => k s g
      end
  | RGroup n r1 =>
      rmatch r1 s g (fun s' g' => k s' ((n, consumed s s') :: g'))
  end.

End Matcher.

(** A match of [r] at the start of [s]: its length and its groups.  With
    [must_advance] an empty match is refused (and the matcher backtracks). *)
Definition match_at (must_advance : bool) (r : regex) (s : str)
  : option (nat * groups) :=
  rmatch r s []
    (fun s' g =>
       let n := length s - length s' in
       if must_advance && Nat.eqb n 0 then None else Some (n, g)).

(** [pattern.search(s)]: the leftmost match, as (start, length, groups). *)
Fixpoint search (r : regex) (s : str) : option (nat * nat * groups) :=
  match match_at false r s with
  | Some (n, g) => Some (0, n, g)
  | None =>
      match s with
      | [] => None
      | _ :: s' =>
          match search r s' with
          | Some (i, n, g) => Some (S i, n, g)
          | None => None
          end
      end
  end.

(** [pattern.sub(repl, s)] with a callable [repl], which receives the matched
    text ([group(0)]) and the groups.  The text is scanned from left to
    right; [skip] counts the characters of the current match still to pass.
    After an empty match the same position is tried once more for a match
    that is not empty. *)
Fixpoint sub_go (r : regex) (repl : str -> groups -> str) (s : str)
    (skip : nat) {struct s} : str :=
  match skip with
  | S n =>
      match s with
      | [] => []
      | _ :: s' => sub_go r repl s' n
      end
  | O =>
      match match_at false r s with
      | None =>
          match s with
          | [] => []
          | c :: s' => c :: sub_go r repl s' 0
          end
      | Some (S n, g) =>
          repl (firstn (S n) s) g ++
          match s with
          | [] => []
          | _ :: s' => sub_go r repl s' n
          end
      | Some (O, g) =>
          repl [] g ++
          match match_at true r s with
          | Some (S n, g') =>
              repl (firstn (S n) s) g' ++
              match s with
              | [] => []
              | _ :: s' => sub_go r repl s' n
              end
          | _ =>
              match s with
              | [] => []
              | c :: s' => c :: sub_go r repl s' 0
              end
          end
      end
  end.

Definition sub (r : regex) (repl : str -> groups -> str) (s : str) : str :=
  sub_go r repl s 0.

(** The text of a group in a replacement template ([\1]): empty when the
    group took no part in the match. *)
Definition group_text (n : nat) (g : groups) : str :=
  match group n g with
  | Some v => v
  | None => []
  end.

Definition seq (rs : list regex) : regex :=
  fold_right RSeq (RLit []) rs.

(** The texts of a pattern, with the groups bound on the way (the latest
    first): what a match can be, whatever the order of the search. *)
Inductive Matches : regex -> str -> groups -> Prop :=
| MLit w : Matches (RLit w) w []
| MSet cs c : cset_mem cs c = true -> Matches (RSet cs) [c] []
| MStar greedy cs w :
    forallb (cset_mem cs) w = true -> Matches (RStar greedy cs) w []
| MSeq r1 r2 w1 w2 g1 g2 :
    Matches r1 w1 g1 -> Matches r2 w2 g2 ->
    Matches (RSeq r1 r2) (w1 ++ w2) (g2 ++ g1)
| MAltL r1 r2 w g : Matches r1 w g -> Matches (RAlt r1 r2) w g
| MAltR r1 r2 w g : Matches r2 w g -> Matches (RAlt r1 r2) w g
| MOptSome r w g : Matches r w g -> Matches (ROpt r) w g
| MOptNone r : Matches (ROpt r) [] []
| MGroup n r w g : Matches r w g -> Matches (RGroup n r) w ((n, w) :: g).

End Re.

Import Re.
(** ** [Config] and [LatexProcessor] *)

Module SuchenErsetzen.

(** [str(Path(s))] on a POSIX system: the text between the slashes, *)
Fixpoint components (s : string) : list string :=
  match s with
  | EmptyString => [EmptyString]
  | String c s' =>
      if Ascii.eqb c "/"
      then EmptyString :: components s'
      else match components s' with
           | [] => [String c EmptyString]
           | x :: xs => String c x :: xs
           end
  end.

(** the root (two slashes at the start are kept, one, three or more are one
    slash), *)
Definition path_root (s : string) : string :=
  match s with
  | String "/"%char (String "/"%char (String "/"%char _)) => "/"
  | String "/"%char (String "/"%char _) => "//"
  | String "/"%char _ => "/"
  | _ => EmptyString
  end%string.

(** and the path without its empty components and its dots. *)
Definition Path (s : string) : string :=
  let parts :=
    filter (fun x => negb (String.eqb x EmptyString) && negb (String.eqb x "."))
      (components s) in
  match path_root s, parts with
  | EmptyString, [] => "."
  | root, _ => root ++ String.concat "/" parts
  end%string.

Record Config : Type := {
  tex_dir : string;
  timestamp : str;
  label_replacements : list (str * str);
  default_image_width : str;
  default_image_height : str
}.

(** [Config.create_default]; [now] is [datetime.datetime.now()] formatted
    with ["%d-%b-%y"]. *)
Definition create_default (dir : string) (now : str) : Config :=
  {| tex_dir := Path dir;
     timestamp := now;
     label_replacements :=
       [(lit "uxfc", lit "ue"); (lit "uxf6", lit "oe");
        (lit "uxe4", lit "ae"); (lit "uxdf", lit "ss")];
     default_image_width := lit "0.8";
     default_image_height := lit "0.6" |}.

(** *** The tables and the compiled patterns of [LatexProcessor.__init__] *)

(** [r"\\toprule\\noalign{}\n"], [r"\\noalign{}\n\\endhead\n"] and
    [r"\\bottomrule\\noalign{}\n\\endlastfoot\n"], in the order of the dict. *)
Definition table_patterns : list regex :=
  [RLit (lit "\toprule\noalign{}" ++ nl);
   RLit (lit "\noalign{}" ++ nl ++ lit "\endhead" ++ nl);
   RLit (lit "\bottomrule\noalign{}" ++ nl ++ lit "\endlastfoot" ++ nl)].

Definition simple_replacements : list (str * str) :=
  [(lit ",height=\textheight", []);
   (lit "``", lit ">>");
   (lit "''", lit "<<");
   (lit "\tightlist", []);
   (lit "\midrule", lit "\midrule[\heavyrulewidth]" ++ nl)].

Definition lazy_any (dotall : bool) : regex := RStar false (CAny dotall).
Definition spaces : regex := RStar true CSpace.

(** The figure pattern, compiled with [re.DOTALL], is four groups in a row:
    group 1 is [\\begin{figure}\s*\\centering\s*], group 2 is
    [\\includegraphics], group 3 is [\[.*?\]] and optional ([?]), group 4 is
    [\{.*?\}]. *)
Definition _figure_pattern : regex :=
  seq [RGroup 1 (seq [RLit (lit "\begin{figure}"); spaces;
                      RLit (lit "\centering"); spaces]);
       RGroup 2 (RLit (lit "\includegraphics"));
       ROpt (RGroup 3 (seq [RLit (lit "["); lazy_any true; RLit (lit "]")]));
       RGroup 4 (seq [RLit (lit "{"); lazy_any true; RLit (lit "}")])].

(** [\\label{([^}]*?)}] *)
Definition _label_pattern : regex :=
  seq [RLit (lit "\label{");
       RGroup 1 (RStar false (CNotIn (lit "}")));
       RLit (lit "}")].

(** [\\passthrough{\\lstinline!(.*?)!}] *)
Definition _code_pattern : regex :=
  seq [RLit (lit "\passthrough{\lstinline!");
       RGroup 1 (lazy_any false);
       RLit (lit "!}")].

(** [\\begin{longtable}\[\]{@{}(.*?)@{}}(.*?)\\end{longtable}] with
    [re.DOTALL] *)
Definition _longtable_pattern : regex :=
  seq [RLit (lit "\begin{longtable}[]{@{}");
       RGroup 1 (lazy_any true);
       RLit (lit "@{}}");
       RGroup 2 (lazy_any true);
       RLit (lit "\end{longtable}")].

(** [\\toprule(.*?)\\bottomrule] with [re.DOTALL] *)
Definition _table_content_pattern : regex :=
  seq [RLit (lit "\toprule"); RGroup 1 (lazy_any true);
       RLit (lit "\bottomrule")].

(** [\\begin{minipage}\[.*?\]{.*?}\\raggedright|\\end{minipage}] *)
Definition _minipage_pattern : regex :=
  RAlt (seq [RLit (lit "\begin{minipage}["); lazy_any false;
             RLit (lit "]{"); lazy_any false; RLit (lit "}\raggedright")])
       (RLit (lit "\end{minipage}")).

(** [\\\(|\\\)] *)
Definition _math_pattern : regex :=
  RAlt (RLit (lit "\(")) (RLit (lit "\)")).

(** [\\pandocbounded\{(.*?)\}] *)
Definition _pandoc_pattern : regex :=
  seq [RLit (lit "\pandocbounded{"); RGroup 1 (lazy_any false);
       RLit (lit "}")].

(** The pattern compiled in [_adjust_table_format]:
    [\\begin{tabular}{@{}\s*>\s*{\\raggedright.*?\\end{tabular}] with
    [re.DOTALL] *)
Definition _adjust_pattern : regex :=
  seq [RLit (lit "\begin{tabular}{@{}"); spaces; RLit (lit ">"); spaces;
       RLit (lit "{\raggedright"); lazy_any true;
       RLit (lit "\end{tabular}")].

(** How an f-string renders a group: [None] prints as its name. *)
Definition fmt (o : option str) : str :=
  match o with
  | Some v => v
  | None => lit "None"
  end.

Section Transformations.

Variable config : Config.

(** *** Rule 1: the timestamp comment *)

(** The prefix of the lines that the rule drops. *)
Definition marker : str := lit "% ju".

(** [f"% ju {self.config.timestamp} {filename}"] *)

Definition new_comment (filename : str) : str :=
  lit "% ju " ++ timestamp config ++ lit " " ++ filename.

(** [line.strip().startswith("% ju")] *)
Definition is_comment_line (line : str) : bool :=
  startswith marker (strip line).

Definition _add_or_replace_comment (content filename : str) : str :=
  let lines := filter (fun line => negb (is_comment_line line))
                      (splitlines content) in
  join nl (new_comment filename :: lines).

(** *** Rule 2: figure environments *)

Definition _create_image_options : str :=
  lit "[width=" ++ default_image_width config ++ lit "\textwidth," ++
  lit "height=" ++ default_image_height config ++
  lit "\textheight,keepaspectratio]".

(** The end of the f-string of [_repl_figure]: a newline and two comment
    lines. *)
Definition figure_trailer : str :=
  nl ++ lit "%\floatnotes{}" ++ nl ++ lit "%\label{fig:}".

(** [_repl_figure]: [if not options] holds for [None] and for the empty
    string; [options[:-1]] is the text without its last character,
    [...[1:]] the text without its first. *)
Definition _repl_figure (m : str) (g : groups) : str :=
  let before := group 1 g in
  let includegraphics := group 2 g in
  let options := group 3 g in
  let path := group 4 g in
  let options :=
    match options with
    | None | Some [] => _create_image_options
    | Some o =>
        if negb (contains (lit "width=") o) && negb (contains (lit "height=") o)
        then removelast o ++ lit "," ++ tl _create_image_options
        else o
    end in
  fmt before ++ fmt includegraphics ++ options ++ fmt path ++ figure_trailer.

Definition _update_figure_environment (content : str) : str :=
  sub _figure_pattern _repl_figure content.

(** *** Rule 3: literal replacements, in the order of the dict *)

(** The loop [for old, new in table.items(): content = content.replace(old, new)]. *)
Definition replace_all (table : list (str * str)) (content : str) : str :=
  fold_left (fun c kv => replace (fst kv) (snd kv) c) table content.

Definition _apply_simple_replacements (content : str) : str :=
  replace_all simple_replacements content.

(** *** Rule 4: labels *)

(** The closure [replacer]; group 1 takes part in every match of the label
    pattern. *)
Definition label_replacer (m : str) (g : groups) : str :=
  let label_content := group_text 1 g in
  let label_content := replace_all (label_replacements config) label_content in
  lit "\label{" ++ label_content ++ lit "}".

Definition _replace_german_chars_in_labels (content : str) : str :=
  sub _label_pattern label_replacer content.

(** *** Rule 5: inline code, template [r"\\verb|\1|"] *)

Definition _convert_code_blocks (content : str) : str :=
  sub _code_pattern
      (fun _ g => lit "\verb|" ++ group_text 1 g ++ lit "|") content.

(** *** Rule 6: longtable *)

(** [re.sub] with the empty replacement, for each pattern of
    [table_patterns] in turn. *)
Definition _clean_table_content (content : str) : str :=
  fold_left (fun c pattern => sub pattern (fun _ _ => []) c)
            table_patterns content.

Definition _create_table_environment (col_defs content : str) : str :=
  lit "\begin{table}[ht]" ++ nl ++
  lit "  %\caption{}" ++ nl ++
  lit "  %\label{tab:my-table}" ++ nl ++
  lit "  \begin{tabular}{@{}" ++ col_defs ++ lit "@{}}" ++ nl ++
  lit "  \toprule" ++ nl ++
  content ++
  lit "  \bottomrule" ++ nl ++
  lit "  \end{tabular}%" ++ nl ++
  lit "\end{table}".

(** The closure [replacer] of [_convert_longtable_to_table]. *)
Definition longtable_replacer (m : str) (g : groups) : str :=
  let col_defs := group_text 1 g in
  let table_content := group_text 2 g in
  let clean_content := _clean_table_content table_content in
  _create_table_environment col_defs clean_content.

Definition _convert_longtable_to_table (content : str) : str :=
  sub _longtable_pattern longtable_replacer content.

(** *** Rule 7: table format *)

Definition _extract_table_content (content : str) : str :=
  match search _table_content_pattern content with
  | None => lit "Inhalt konnte nicht extrahiert werden."
  | Some (_, _, g) =>
      strip (sub _minipage_pattern (fun _ _ => []) (group_text 1 g))
  end.

(** The Python literal ["\\\\"]: two backslashes. *)
Definition row_end : str := lit "\\".
Definition cell_sep : str := lit "&".

(** [//] is the division of [Z] on numbers that are not negative. *)

Definition _calculate_columns (content : str) : Z :=
  if negb (contains row_end content) then 1%Z
  else (Z.of_nat (count cell_sep content) / Z.of_nat (count row_end content)
        + 1)%Z.

Definition _create_adjusted_table (content : str) (cols_count : Z) : str :=
  lit "\begin{tabular}{@{}" ++ times (lit "l") cols_count ++ lit "@{}}" ++ nl ++
  lit "\toprule" ++ nl ++
  content ++ nl ++
  lit "\bottomrule" ++ nl ++
  lit "\end{tabular}".

Definition _adjust_table_structure (m : str) (g : groups) : str :=
  let table_content := _extract_table_content m in
  let cols_count := _calculate_columns table_content in
  _create_adjusted_table table_content cols_count.

Definition _adjust_table_format (content : str) : str :=
  sub _adjust_pattern _adjust_table_structure content.

(** *** Rules 8 and 9 *)

Definition _convert_math_delimiters (content : str) : str :=
  sub _math_pattern (fun _ _ => lit "$") content.

Definition _remove_pandoc_bounded (content : str) : str :=
  sub _pandoc_pattern (fun _ g => group_text 1 g) content.

End Transformations.

(** *** The orchestrator: logging, exceptions and the files of [tex_dir] *)

(** What a call raises, as far as the orchestrator tells apart: [OSError]
    is an [Exception] too. *)
Inductive exn : Type :=
| OSError (msg : string)
| Exception (msg : string).

Inductive result (A : Type) : Type :=
| Ok (a : A)
| Raise (e : exn).

Arguments Ok {A} a.
Arguments Raise {A} e.

(** One constructor per logging call of the script. *)
Inductive log_entry : Type :=
| Info_directory (dir : string)          (* "Verarbeite Dateien in: %s" *)
| Warning_no_files                       (* "Keine .tex-Dateien gefunden!" *)
| Info_found (n : nat)                   (* "Gefundene .tex-Dateien: %d" *)
| Info_processing (file : str)           (* "Verarbeite: %s" *)
| Info_success (file : str)              (* "Erfolgreich verarbeitet: %s" *)
| Error_file (file : str) (e : exn)      (* "Fehler bei der Verarbeitung von %s: %s" *)
| Error_transformation (name : string) (e : exn)
                                         (* "Fehler bei Transformation %s: %s" *)
| Error_directory (e : exn)              (* "Fehler beim Zugriff auf Verzeichnis: %s" *)
| Info_finished.                         (* "Verarbeitung erfolgreich abgeschlossen!" *)

Definition log := list log_entry.

(** An entry of the list [transformations]: the callable with its keyword
    arguments applied, and its [__name__]. *)
Record transformation : Type := {
  transform_name : string;
  transform_func : str -> result str
}.

(** The loop of [_apply_all_transformations] over a list of
    transformations: [content] is assigned only when the call returns. *)
Fixpoint apply_transformations (ts : list transformation) (content : str)
    (l : log) : str * log :=
  match ts with
  | [] => (content, l)
  | t :: ts' =>
      match transform_func t content with
      | Ok content' => apply_transformations ts' content' l
      | Raise e =>
          apply_transformations ts' content
            (l ++ [Error_transformation (transform_name t) e])
      end
  end.

Definition pure_transformation (name : string) (f : str -> str)
  : transformation :=
  {| transform_name := name; transform_func := fun c => Ok (f c) |}.

(** The list built in [_apply_all_transformations]. *)
Definition transformations (config : Config) (filename : str)
  : list transformation :=
  [pure_transformation "_add_or_replace_comment"
     (fun c => _add_or_replace_comment config c filename);
   pure_transformation "_update_figure_environment"
     (_update_figure_environment config);
   pure_transformation "_apply_simple_replacements"
     _apply_simple_replacements;
   pure_transformation "_replace_german_chars_in_labels"
     (_replace_german_chars_in_labels config);
   pure_transformation "_convert_code_blocks" _convert_code_blocks;
   pure_transformation "_convert_longtable_to_table"
     _convert_longtable_to_table;
   pure_transformation "_adjust_table_format" _adjust_table_format;
   pure_transformation "_convert_math_delimiters" _convert_math_delimiters;
   pure_transformation "_remove_pandoc_bounded" _remove_pandoc_bounded].

Definition _apply_all_transformations (config : Config) (content filename : str)
    (l : log) : str * log :=
  apply_transformations (transformations config filename) content l.

(** A file found by [Path(".").glob("*.tex")]: its name, what [read_text]
    returns or raises, and what [write_text] raises, if anything. *)
Record tex_file : Type := {
  file_name : str;
  read_text : result str;
  write_text : str -> option exn
}.

(** The directory: whether [os.chdir] raises, and the files of the glob in
    the order it yields them. *)
Record directory : Type := {
  chdir : option exn;
  glob_tex : list tex_file
}.

(** The state of a run: the log and the texts written, latest last. *)
Record run_state : Type := {
  run_log : log;
  run_written : list (str * str)
}.

Inductive outcome : Type :=
| Returned
| Exited (code : Z).

Section Orchestrator.

(** The transformations of a file, by its name. *)
Variable chain : str -> list transformation.

(** [_process_single_file]: whatever [read_text] or [write_text] raise is
    logged for the file. *)
Definition process_single_file_with (f : tex_file) (st : run_state)
  : run_state :=
  let l := run_log st ++ [Info_processing (file_name f)] in
  match read_text f with
  | Raise e =>
      {| run_log := l ++ [Error_file (file_name f) e];
         run_written := run_written st |}
  | Ok content =>
      let (content', l') :=
        apply_transformations (chain (file_name f)) content l in
      match write_text f content' with
      | Some e =>
          {| run_log := l' ++ [Error_file (file_name f) e];
             run_written := run_written st |}
      | None =>
          {| run_log := l' ++ [Info_success (file_name f)];
             run_written := run_written st ++ [(file_name f, content')] |}
      end
  end.

(** [process_files]; the [finally] clause changes the directory back and
    does not touch the log. *)
Definition process_files_with (dir_name : string) (d : directory)
    (st : run_state) : run_state * outcome :=
  match chdir d with
  | Some e =>
      ({| run_log := run_log st ++ [Error_directory e];
          run_written := run_written st |}, Exited 1)
  | None =>
      let st1 := {| run_log := run_log st ++ [Info_directory dir_name];
                    run_written := run_written st |} in
      match glob_tex d with
      | [] =>
          ({| run_log := run_log st1 ++ [Warning_no_files];
              run_written := run_written st1 |}, Returned)
      | tex_files =>
          let st2 := {| run_log := run_log st1 ++ [Info_found (length tex_files)];
                        run_written := run_written st1 |} in
          (fold_left (fun s f => process_single_file_with f s) tex_files st2,
           Returned)
      end
  end.

(** [main], after the arguments are parsed: [sys.exit] passes through
    [except Exception]. *)
Definition main_with (dir_name : string) (d : directory)
  : run_state * outcome :=
  match process_files_with dir_name d {| run_log := []; run_written := [] |} with
  | (st, Returned) =>
      ({| run_log := run_log st ++ [Info_finished];
          run_written := run_written st |}, Returned)
  | (st, Exited code) => (st, Exited code)
  end.

End Orchestrator.

Definition _process_single_file (config : Config) :=
  process_single_file_with (transformations config).

Definition process_files (config : Config) :=
  process_files_with (transformations config) (tex_dir config).

Definition main (dir : string) (now : str) (d : directory) :=
  let config := create_default dir now in
  main_with (transformations config) (tex_dir config) d.

End SuchenErsetzen.

Import SuchenErsetzen.

(** ** The rules, one by one *)

Module Rules.

(** The nine rules, in the order of the pipeline. *)
Inductive rule : Type :=
| Timestamp | Figure | Simple | Labels | Code
| Longtable | TableFormat | Math | Pandoc.

Definition all_rules : list rule :=
  [Timestamp; Figure; Simple; Labels; Code; Longtable; TableFormat; Math; Pandoc].

Definition apply_rule (config : Config) (filename : str) (r : rule)
  : str -> str :=
  match r with
  | Timestamp => fun c => _add_or_replace_comment config c filename
  | Figure => _update_figure_environment config
  | Simple => _apply_simple_replacements
  | Labels => _replace_german_chars_in_labels config
  | Code => _convert_code_blocks
  | Longtable => _convert_longtable_to_table
  | TableFormat => _adjust_table_format
  | Math => _convert_math_delimiters
  | Pandoc => _remove_pandoc_bounded
  end.

(** The document has no instance of what the rule looks for: no line that
    the timestamp rule would drop, no occurrence of a search string of the
    literal table, no match of the rule's pattern. *)
Definition target_absent (r : rule) (D : str) : Prop :=
  match r with
  | Timestamp => forallb (fun l => negb (is_comment_line l)) (splitlines D) = true
  | Figure => search _figure_pattern D = None
  | Simple => forallb (fun kv => negb (contains (fst kv) D)) simple_replacements = true
  | Labels => search _label_pattern D = None
  | Code => search _code_pattern D = None
  | Longtable => search _longtable_pattern D = None
  | TableFormat => search _adjust_pattern D = None
  | Math => search _math_pattern D = None
  | Pandoc => search _pandoc_pattern D = None
  end.

(** Rule 8 in the words of the specification: every [\(] and every [\)]
    becomes [$], everything else is copied. *)
Fixpoint dollar_delimiters (s : str) : str :=
  match s with
  | [] => []
  | c :: s' =>
      match s' with
      | d :: s'' =>
          if N.eqb c 92 && (N.eqb d 40 || N.eqb d 41)
          then 36%N :: dollar_delimiters s''
          else c :: dollar_delimiters s'
      | [] => [c]
      end
  end.

(** A text without backslash. *)
Definition plain (s : str) : bool := forallb (fun c => negb (N.eqb c 92)) s.

(** No occurrence of [w] in [pre ++ tail] begins inside [pre]. *)
Fixpoint no_start_in (w pre tail : str) : bool :=
  match pre with
  | [] => true
  | _ :: pre' => negb (startswith w (pre ++ tail)) && no_start_in w pre' tail
  end.

(** No match of [r] in [pre ++ s] begins inside [pre]. *)
Fixpoint no_match_in (r : regex) (pre s : str) : bool :=
  match pre with
  | [] => true
  | _ :: pre' =>
      match match_at false r (pre ++ s) with
      | None => no_match_in r pre' s
      | Some _ => false
      end
  end.

(** A longtable environment as the longtable pattern expects it. *)
Definition longtable_block (cols body : str) : str :=
  lit "\begin{longtable}[]{@{}" ++ cols ++ lit "@{}}" ++ body ++
  lit "\end{longtable}".

(** The three control rows in the form of [table_patterns]. *)
Definition toprule_row : str := lit "\toprule\noalign{}" ++ nl.
Definition endhead_row : str := lit "\noalign{}" ++ nl ++ lit "\endhead" ++ nl.
Definition bottomrule_row : str :=
  lit "\bottomrule\noalign{}" ++ nl ++ lit "\endlastfoot" ++ nl.


(** The body of a longtable with a header row, as the upstream converter
    writes it: the [\noalign{}] in front of [\endhead] is the one of the
    middle rule. *)
Definition header_body (head row : str) : str :=
  nl ++ toprule_row ++ head ++ lit " \\" ++ nl ++
  lit "\midrule" ++ endhead_row ++ bottomrule_row ++
  row ++ lit " \\" ++ nl.



(** The control tokens of a longtable, and a text in which none of them
    occurs. *)
Definition control_tokens : list str :=
  [lit "\noalign"; lit "\endhead"; lit "\endlastfoot";
   lit "\begin{longtable}"; lit "\end{longtable}"].

Definition token_free (s : str) : bool :=
  forallb (fun token => negb (contains token s)) control_tokens.

(** No end of the first [n] characters of [w], followed by the rest of
    [w], is what [b] begins with: an occurrence of [w] that begins in front
    of [b] has its first [n] characters in front of [b]. *)
Definition no_overlap (w : str) (n : nat) (b : str) : bool :=
  forallb (fun k => negb (startswith (skipn k w) b)) (List.seq 1 (n - 1)).

(** A text without line boundary: one line. *)
Definition single_line (s : str) : bool :=
  forallb (fun c => negb (is_linebreak c)) s.

(** The lines of a document that begin with the marker [% ju]. *)
Definition banner_lines (s : str) : list str :=
  filter (startswith marker) (splitlines s).

(** The lines that [_add_or_replace_comment] keeps. *)
Definition kept_lines (content : str) : list str :=
  filter (fun line => negb (is_comment_line line)) (splitlines content).

(** A list of lines without its last line, when that line is empty. *)
Fixpoint drop_last_empty (ls : list str) : list str :=
  match ls with
  | [] => []
  | [l] => match l with [] => [] | _ :: _ => [l] end
  | l :: ls' => l :: drop_last_empty ls'
  end.

(** The test of [_repl_figure] on the options of a figure. *)
Definition width_or_height (options : str) : bool :=
  contains (lit "width=") options || contains (lit "height=") options.


(** The keys of an option list as the specification speaks of them: the
    items between the commas, each up to its equals sign, without the white
    space around it. *)
Fixpoint split_on (sep : char) (s : str) : list str :=
  match s with
  | [] => [[]]
  | c :: s' =>
      if N.eqb c sep then [] :: split_on sep s'
      else match split_on sep s' with
           | [] => [[c]]
           | x :: xs => (c :: x) :: xs
           end
  end.

Fixpoint upto (sep : char) (s : str) : str :=
  match s with
  | [] => []
  | c :: s' => if N.eqb c sep then [] else c :: upto sep s'
  end.

Definition option_keys (body : str) : list str :=
  map (fun item => strip (upto 61%N item)) (split_on 44%N body).

Definition str_eqb (a b : str) : bool :=
  Nat.eqb (length a) (length b) && startswith a b.

Definition has_key (key : string) (body : str) : bool :=
  existsb (str_eqb (lit key)) (option_keys body).

End Rules.

Import Rules.

(** ** What a run reports *)

Module Report.

(** The numbers that a log states (the arguments of [%d]). *)
Definition logged_counts (l : log) : list nat :=
  flat_map (fun e => match e with Info_found n => [n] | _ => [] end) l.

Definition is_rule_error (e : log_entry) : bool :=
  match e with
  | Error_transformation _ _ => true
  | _ => false
  end.

(** The entry that closes the processing of a file. *)
Definition closes (name : str) (e : log_entry) : Prop :=
  e = Info_success name \/ exists x, e = Error_file name x.

Definition empty_state : run_state := {| run_log := []; run_written := [] |}.

(** The entries that one file adds to the log. *)
Definition file_entries (chain : str -> list transformation) (f : tex_file)
  : log :=
  run_log (process_single_file_with chain f empty_state).

(** The transformations of the list that raise on the text they receive,
    each with what it raised, in the order of the list. *)
Fixpoint rule_failures (ts : list transformation) (content : str)
  : list (string * exn) :=
  match ts with
  | [] => []
  | t :: ts' =>
      match transform_func t content with
      | Ok content' => rule_failures ts' content'
      | Raise e => (transform_name t, e) :: rule_failures ts' content
      end
  end.

(** The log entry of a failure. *)
Definition rule_error (failure : string * exn) : log_entry :=
  Error_transformation (fst failure) (snd failure).

(** No transformation of the list raises on the text it receives. *)
Fixpoint no_rule_fails (ts : list transformation) (content : str) : bool :=
  match ts with
  | [] => true
  | t :: ts' =>
      match transform_func t content with
      | Ok content' => no_rule_fails ts' content'
      | Raise _ => false
      end
  end.

(** The file was read, every rule was applied, the result was written. *)
Definition fully_transformed (chain : str -> list transformation)
    (f : tex_file) : bool :=
  match read_text f with
  | Raise _ => false
  | Ok content =>
      no_rule_fails (chain (file_name f)) content &&
      match write_text f (fst (apply_transformations (chain (file_name f)) content [])) with
      | None => true
      | Some _ => false
      end
  end.

End Report.

Import Report.

(** ** Sample configuration and documents *)

Module Samples.

Definition cfg0 : Config := create_default "./tex" (lit "26-Nov-24").

Definition plain_doc : str := lit "Ein Absatz ohne Makros." ++ nl ++ lit "Noch einer.".

(** Five cell separators and two row ends. *)
Definition rows_5_2 : str :=
  lit "a & b & c \\" ++ nl ++ lit "d & e & f & g \\".

(** A rule that raises, between two rules of the pipeline. *)
Definition raising_rule : transformation :=
  {| transform_name := "_convert_code_blocks";
     transform_func := fun _ => Raise (Exception "bad delimiter") |}.

Definition rules_before : list transformation :=
  [pure_transformation "_apply_simple_replacements" _apply_simple_replacements].

Definition rules_after : list transformation :=
  [pure_transformation "_convert_math_delimiters" _convert_math_delimiters].

Definition chain_with_failure (filename : str) : list transformation :=
  rules_before ++ raising_rule :: rules_after.

Definition always_writable (content : str) : option exn := None.

Definition a_tex : tex_file :=
  {| file_name := lit "a.tex";
     read_text := Ok (lit "``a'' \(x+y\)");
     write_text := always_writable |}.

Definition b_tex : tex_file :=
  {| file_name := lit "b.tex";
     read_text := Raise (Exception "UnicodeDecodeError");
     write_text := always_writable |}.

Definition two_files : directory :=
  {| chdir := None; glob_tex := [a_tex; b_tex] |}.

(** A figure without options, one with options but no size, one with a
    width. *)
Definition figure_plain : str :=
  lit "\begin{figure}" ++ nl ++ lit "\centering" ++ nl ++
  lit "\includegraphics{bild.png}" ++ nl ++ lit "\end{figure}".

Definition figure_intro : str := lit "Ein Bild:" ++ nl.

Definition figure_alt : str :=
  lit "\begin{figure}" ++ nl ++ lit "\centering" ++ nl ++
  lit "\includegraphics[keepaspectratio,alt={Bild}]{bild.png}" ++ nl ++
  lit "\end{figure}".

Definition figure_width : str :=
  lit "\begin{figure}" ++ nl ++ lit "\centering" ++ nl ++
  lit "\includegraphics[width=3cm]{bild.png}" ++ nl ++ lit "\end{figure}".

(** A document with timestamp lines of an earlier run, and CR LF line
    ends. *)
Definition stamped_doc : str :=
  lit "% ju 01-Jan-24 a.tex" ++ [CR; LF] ++ lit "Text" ++ [CR; LF] ++
  lit "  % ju alt" ++ [CR; LF] ++ lit "mehr" ++ [CR; LF].

(** A document that ends with an empty line. *)
Definition blank_end_doc : str := lit "a" ++ nl ++ nl.

(** The name of a file with a line feed in it, the second line beginning
    like a timestamp line. *)
Definition two_line_name : str := lit "a" ++ nl ++ lit "% ju b.tex".

(** A figure whose only option is [totalheight], and one with a blank
    between [width] and its equals sign. *)
Definition figure_totalheight : str :=
  lit "\begin{figure}" ++ nl ++ lit "\centering" ++ nl ++
  lit "\includegraphics[totalheight=3cm]{bild.png}" ++ nl ++ lit "\end{figure}".

Definition figure_width_blank : str :=
  lit "\begin{figure}" ++ nl ++ lit "\centering" ++ nl ++
  lit "\includegraphics[width =3cm]{bild.png}" ++ nl ++ lit "\end{figure}".



(** A table with paragraph columns, and one in which the rules are
    missing. *)
Definition raggedright_table : str :=
  lit "\begin{tabular}{@{} >{\raggedright\arraybackslash}p{3cm} >{\raggedright}p{2cm}@{}}"
  ++ nl ++ lit "\toprule" ++ nl ++
  lit "\begin{minipage}[b]{\linewidth}\raggedright A\end{minipage} & B & C\\"
  ++ nl ++ lit "1 & 2 & 3 \\" ++ nl ++ lit "\bottomrule" ++ nl ++
  lit "\end{tabular}".

Definition raggedright_no_rules : str :=
  lit "\begin{tabular}{@{}>{\raggedright}l@{}} ohne Linien \end{tabular}".

End Samples.

Import Samples.


(** ** Further definitions for the rules and their callers *)

Module Further.

(** The text that [_extract_table_content] returns when it finds no rows. *)
Definition placeholder : str := lit "Inhalt konnte nicht extrahiert werden.".

(** A text without newline: what [.] can run over without [re.DOTALL]. *)
Definition no_newline (s : str) : bool := forallb (fun c => negb (N.eqb c LF)) s.

(** A pattern that cannot take a newline: its literals have none and its
    sets exclude it. *)
Fixpoint line_bound (r : regex) : bool :=
  match r with
  | RLit w => negb (char_in LF w)
  | RSet cs => negb (cset_mem cs LF)
  | RStar _ cs => negb (cset_mem cs LF)
  | RSeq r1 r2 => line_bound r1 && line_bound r2
  | RAlt r1 r2 => line_bound r1 && line_bound r2
  | ROpt r1 => line_bound r1
  | RGroup _ r1 => line_bound r1
  end.

(** The inline code of the upstream converter and the wrapper of rule 9. *)
Definition code_block (payload : str) : str :=
  lit "\passthrough{\lstinline!" ++ payload ++ lit "!}".

Definition pandoc_block (payload : str) : str :=
  lit "\pandocbounded{" ++ payload ++ lit "}".

(** Plain prose: a text without backslash, backtick and apostrophe. *)
Definition prose (s : str) : bool :=
  forallb (fun c => negb (char_in c [92; 96; 39]%N)) s.


(** *** The menu script [scriptauswahl.py], which runs the pipeline as one
    of its commands *)

Module Scriptauswahl.

(** What [yaml.safe_load] returns, as far as [load_config] looks at it: an
    item of a list is a string or not, a value is a list or not. *)
Inductive item : Type :=
| IsStr (s : string)
| NotStr.

Inductive yaml : Type :=
| YList (items : list item)
| YOther.

(** A [dict] with string keys, in the order of insertion. *)
Definition dict (V : Type) : Type := list (string * V).

Fixpoint dict_get {V : Type} (key : string) (d : dict V) : option V :=
  match d with
  | [] => None
  | (k, v) :: d' => if String.eqb key k then Some v else dict_get key d'
  end.

(** [d[key] = v] *)
Fixpoint dict_set {V : Type} (key : string) (v : V) (d : dict V) : dict V :=
  match d with
  | [] => [(key, v)]
  | (k, x) :: d' =>
      if String.eqb key k then (k, v) :: d' else (k, x) :: dict_set key v d'
  end.

(** The items of a list when [all(isinstance(x, str) for x in value)]. *)
Fixpoint strings_of (items : list item) : option (list string) :=
  match items with
  | [] => Some []
  | IsStr s :: rest =>
      match strings_of rest with
      | Some strs => Some (s :: strs)
      | None => None
      end
  | NotStr :: _ => None
  end.

(** What [open] and [yaml.safe_load] raise. *)
Inductive library_error : Type :=
| OSError               (* [open]: no such file, no permission *)
| UnicodeDecodeError    (* reading the file *)
| YAMLError.            (* [yaml.safe_load]: not a YAML document *)

(** The exceptions of the module; none of them is caught. *)
Inductive exception : Type :=
| Library (e : library_error)
| AttributeError             (* [config.items()] of a value that is no mapping *)
| KeyError (key : string).   (* [CONFIG[key]] *)

(** What [yaml.safe_load] returns: a mapping, with distinct keys (a key
    that is not a string never equals a key that the script asks for and is
    left out here), or something else: [None] for an empty file, a list, a
    scalar. *)
Inductive document : Type :=
| Mapping (config : dict yaml)
| NotMapping.

(** The file [config.yaml], as [open] and [yaml.safe_load] find it. *)
Inductive config_file : Type :=
| Failing (e : library_error)
| Holding (doc : document).

Definition distinct_keys (file : config_file) : Prop :=
  match file with
  | Holding (Mapping config) => NoDup (map fst config)
  | _ => True
  end.

Inductive returns (A : Type) : Type :=
| Returns (a : A)
| Raises (e : exception).

Arguments Returns {A} a.
Arguments Raises {A} e.

(** The loop of [load_config] over [config.items()]. *)
Definition keep_string_lists (config : dict yaml) : dict (list string) :=
  fold_left
    (fun result kv =>
       match snd kv with
       | YList items =>
           match strings_of items with
           | Some strs => dict_set (fst kv) strs result
           | None => result
           end
       | YOther => result
       end)
    config [].

(** [load_config]: what [open] or [yaml.safe_load] raise goes to the
    caller, and so does the [AttributeError] of [config.items()]. *)
Definition load_config (file : config_file) : returns (dict (list string)) :=
  match file with
  | Failing e => Raises (Library e)
  | Holding NotMapping => Raises AttributeError
  | Holding (Mapping config) => Returns (keep_string_lists config)
  end.

(** The commands of the tables [LATEX_COMMANDS], [MAKE_COMMANDS] and
    [HTML_COMMANDS]. *)
Record commands : Type := {
  LATEX_KONVERTIEREN : list string;
  LATEX_ENTFERNEN : list string;
  LATEX_SUCHEN_ERSETZEN : list string;
  SYNC_TEX_FILES : list string;
  MAKE : list string;
  MAKE_XELATEX : list string;
  MAKE_LUALATEX : list string;
  MAKE_CLEAN : list string;
  MAKE_CLEAN_PDF : list string;
  HTML_PANDOC : list string;
  HTML_NAVIGATION : list string;
  HTML_ENTFERNEN : list string
}.

Definition required_keys : list string :=
  ["LATEX_KONVERTIEREN"; "LATEX_ENTFERNEN"; "LATEX_SUCHEN_ERSETZEN";
   "SYNC_TEX_FILES"; "MAKE"; "MAKE_XELATEX"; "MAKE_LUALATEX"; "MAKE_CLEAN";
   "MAKE_CLEAN_PDF"; "HTML_PANDOC"; "HTML_NAVIGATION"; "HTML_ENTFERNEN"]%string.

(** The module either has its tables or has raised. *)
Inductive startup : Type :=
| Raised (e : exception)
| Loaded (c : commands).

(** [CONFIG[key]], then the rest of the module. *)
Definition subscript (CONFIG : dict (list string)) (key : string)
    (rest : list string -> startup) : startup :=
  match dict_get key CONFIG with
  | Some v => rest v
  | None => Raised (KeyError key)
  end.

(** The three tables, in the order in which the module builds them. *)
Definition module_tables (CONFIG : dict (list string)) : startup :=
  subscript CONFIG "LATEX_KONVERTIEREN" (fun k1 =>
  subscript CONFIG "LATEX_ENTFERNEN" (fun k2 =>
  subscript CONFIG "LATEX_SUCHEN_ERSETZEN" (fun k3 =>
  subscript CONFIG "SYNC_TEX_FILES" (fun k4 =>
  subscript CONFIG "MAKE" (fun k5 =>
  subscript CONFIG "MAKE_XELATEX" (fun k6 =>
  subscript CONFIG "MAKE_LUALATEX" (fun k7 =>
  subscript CONFIG "MAKE_CLEAN" (fun k8 =>
  subscript CONFIG "MAKE_CLEAN_PDF" (fun k9 =>
  subscript CONFIG "HTML_PANDOC" (fun k10 =>
  subscript CONFIG "HTML_NAVIGATION" (fun k11 =>
  subscript CONFIG "HTML_ENTFERNEN" (fun k12 =>
  Loaded {| LATEX_KONVERTIEREN := k1; LATEX_ENTFERNEN := k2;
            LATEX_SUCHEN_ERSETZEN := k3; SYNC_TEX_FILES := k4;
            MAKE := k5; MAKE_XELATEX := k6; MAKE_LUALATEX := k7;
            MAKE_CLEAN := k8; MAKE_CLEAN_PDF := k9;
            HTML_PANDOC := k10; HTML_NAVIGATION := k11;
            HTML_ENTFERNEN := k12 |})))))))))))).

(** The module from [CONFIG = load_config("config.yaml")] to its tables. *)
Definition module_start (file : config_file) : startup :=
  match load_config file with
  | Raises e => Raised e
  | Returns CONFIG => module_tables CONFIG
  end.

(** The key is not in the dict. *)
Definition missing {V : Type} (d : dict V) (key : string) : bool :=
  match dict_get key d with
  | Some _ => false
  | None => true
  end.

(** How [subprocess.run(befehl, check=True)] ends. *)
Inductive call_outcome : Type :=
| Succeeded
| CalledProcessError
| FileNotFoundError
| PermissionError
| OtherException.

(** One constructor per logging call of the functions modelled. *)
Inductive entry : Type :=
| Info_befehl (befehl : list string)   (* "Ausfuehrender Befehl: ..." *)
| Error_ausfuehren                      (* CalledProcessError *)
| Error_nicht_gefunden                  (* FileNotFoundError *)
| Error_berechtigung                    (* PermissionError *)
| Error_unerwartet                      (* Exception *)
| Info_synchronisiert
| Error_synchronisieren
| Info_starte_kombi
| Info_fuehre_aus (beschreibung : string)
| Error_bei (beschreibung : string)
| Info_kombi_abgeschlossen.

(** The commands handed to [subprocess.run] so far, and the log. *)
Record world : Type := {
  calls : list (list string);
  wlog : list entry
}.

Definition log_add (e : entry) (w : world) : world :=
  {| calls := calls w; wlog := wlog w ++ [e] |}.

Section Calls.

(** The outcome of a command, given the commands run before it. *)
Variable run : list (list string) -> list string -> call_outcome.

Definition sicherer_aufruf (befehl : list string) (w : world)
  : world * bool :=
  let w1 := log_add (Info_befehl befehl) w in
  let w2 := {| calls := calls w1 ++ [befehl]; wlog := wlog w1 |} in
  match run (calls w) befehl with
  | Succeeded => (w2, true)
  | CalledProcessError => (log_add Error_ausfuehren w2, false)
  | FileNotFoundError => (log_add Error_nicht_gefunden w2, false)
  | PermissionError => (log_add Error_berechtigung w2, false)
  | OtherException => (log_add Error_unerwartet w2, false)
  end.

Definition rsync_befehl : list string :=
  ["rsync"; "-avh"; "--progress"; "tex/"; "."]%string.

Definition verarbeite_alle_tex_dateien (w : world) : world :=
  let (w', ok) := sicherer_aufruf rsync_befehl w in
  if ok then log_add Info_synchronisiert w'
  else log_add Error_synchronisieren w'.

(** A step of the combined processing: a command of the configuration or
    a function of the script. *)
Inductive schritt : Type :=
| Befehl (befehl : list string)
| Funktion (f : world -> world).

(** The loop of [kombinierte_latex_verarbeitung]; [false] when it has
    returned early. *)
Fixpoint schritte_ausfuehren (schritte : list (schritt * string)) (w : world)
  : world * bool :=
  match schritte with
  | [] => (w, true)
  | (befehl, beschreibung) :: rest =>
      let w := log_add (Info_fuehre_aus beschreibung) w in
      match befehl with
      | Befehl b =>
          let (w', ok) := sicherer_aufruf b w in
          if ok then schritte_ausfuehren rest w'
          else (log_add (Error_bei beschreibung) w', false)
      | Funktion f => schritte_ausfuehren rest (f w)
      end
  end.

Definition kombinierte_latex_verarbeitung (c : commands) (w : world) : world :=
  let w := log_add Info_starte_kombi w in
  let (w', done) :=
    schritte_ausfuehren
      [(Befehl (LATEX_KONVERTIEREN c), "LaTeX konvertieren");
       (Befehl (LATEX_ENTFERNEN c), "LaTeX Code entfernen");
       (Befehl (LATEX_SUCHEN_ERSETZEN c), "LaTeX Code suchen und ersetzen");
       (Funktion verarbeite_alle_tex_dateien, "Synchronisiere .tex-Dateien");
       (Befehl (MAKE_XELATEX c), "make xelatex")]%string w in
  if done then log_add Info_kombi_abgeschlossen w' else w'.

Definition kombinierte_html_verarbeitung (c : commands) (w : world) : world :=
  fold_left (fun w befehl => fst (sicherer_aufruf befehl w))
    [HTML_PANDOC c; HTML_NAVIGATION c; HTML_ENTFERNEN c] w.

End Calls.

Definition succeeded (o : call_outcome) : bool :=
  match o with
  | Succeeded => true
  | _ => false
  end.

(** The value of a key when it is a list of strings. *)
Definition string_list (key : string) (config : dict yaml)
  : option (list string) :=
  match dict_get key config with
  | Some (YList items) => strings_of items
  | _ => None
  end.

(** A configuration with one key that is not a list of strings, and a
    complete one. *)
Definition sample_yaml : dict yaml :=
  [("MAKE", YList [IsStr "make"]);
   ("MAKE_CLEAN", YList []);
   ("VERSION", YOther);
   ("HTML_PANDOC", YList [IsStr "python"; NotStr])]%string.

Definition command_of (key : string) : string * yaml :=
  (key, YList [IsStr "python"; IsStr key]).

Definition complete_yaml : dict yaml := map command_of required_keys.

End Scriptauswahl.

End Further.

Import Further.

(** * Properties *)

Unset Implicit Arguments.

(** ** Strings *)

Section StrFacts.

Lemma startswith_app (p s : str) : startswith p (p ++ s) = true.
Proof.
  induction p as [|a p IH]; simpl; [reflexivity|].
  now rewrite N.eqb_refl, IH.
Qed.

Lemma startswith_split (p s : str) :
  startswith p s = true -> exists t, s = p ++ t.
Proof.
  revert s; induction p as [|a p IH]; intros s H.
  - now exists s.
  - destruct s as [|b s]; simpl in H; [discriminate|].
    apply andb_true_iff in H as [Hab H].
    apply N.eqb_eq in Hab; subst b.
    destruct (IH _ H) as [t ->]. now exists t.
Qed.

Lemma contains_cons_false (sub : str) (c : char) (s : str) :
  contains sub (c :: s) = false ->
  startswith sub (c :: s) = false /\ contains sub s = false.
Proof.
  simpl contains. intros H. now apply orb_false_iff in H.
Qed.

Lemma count_go_absent (sub s : str) :
  contains sub s = false -> forall skip, count_go sub s skip = 0.
Proof.
  induction s as [|c s IH]; intros H skip; [reflexivity|].
  apply contains_cons_false in H as [Hs Hc].
  destruct skip; cbn [count_go]; [rewrite Hs|]; now apply IH.
Qed.

Lemma count_absent (sub s : str) : contains sub s = false -> count sub s = 0.
Proof.
  intros H. destruct sub as [|a sub].
  - destruct s; discriminate.
  - now apply count_go_absent.
Qed.

Lemma count_pos_contains (sub s : str) :
  count sub s <> 0 -> contains sub s = true.
Proof.
  intros H. destruct (contains sub s) eqn:E; [reflexivity|].
  now apply count_absent in E.
Qed.

Lemma contains_count_pos (sub s : str) :
  sub <> [] -> contains sub s = true -> count sub s <> 0.
Proof.
  intros Hne. destruct sub as [|a sub]; [congruence|]. cbn [count].
  induction s as [|c s IH]; intros H.
  - discriminate.
  - cbn [count_go]. cbn [contains] in H.
    destruct (startswith (a :: sub) (c :: s)); [discriminate|].
    now apply IH.
Qed.

Lemma replace_go_absent (old new s : str) :
  contains old s = false -> replace_go old new s 0 = s.
Proof.
  induction s as [|c s IH]; intros H; [reflexivity|].
  apply contains_cons_false in H as [Hs Hc].
  cbn [replace_go]. rewrite Hs. now rewrite IH.
Qed.

Lemma replace_absent (old new s : str) :
  contains old s = false -> replace old new s = s.
Proof.
  intros H. destruct old as [|a old].
  - destruct s; discriminate.
  - now apply replace_go_absent.
Qed.

Lemma replace_all_absent (table : list (str * str)) (s : str) :
  forallb (fun kv => negb (contains (fst kv) s)) table = true ->
  replace_all table s = s.
Proof.
  unfold replace_all. induction table as [|[old new] table IH]; intros H.
  - reflexivity.
  - simpl in H. apply andb_true_iff in H as [H1 H2].
    apply negb_true_iff in H1. simpl. rewrite (replace_absent _ _ _ H1).
    now apply IH.
Qed.

(** The built-ins on the inputs that tell their corner cases apart. *)
Example splitlines_examples :
  splitlines (lit "a" ++ nl ++ nl) = [lit "a"; []]
  /\ splitlines nl = [[]]
  /\ splitlines (lit "a" ++ [CR; LF]) = [lit "a"]
  /\ splitlines (lit "a" ++ [LF; CR]) = [lit "a"; []]
  /\ splitlines (lit "ab" ++ [CR] ++ lit "c") = [lit "ab"; lit "c"]
  /\ splitlines [] = [].
Proof. repeat split. Qed.

Example replace_count_strip_examples :
  replace [] (lit "-") (lit "abc") = lit "-a-b-c-"
  /\ replace (lit "aa") (lit "b") (lit "aaa") = lit "ba"
  /\ count (lit "aa") (lit "aaa") = 1
  /\ count [] (lit "abc") = 4
  /\ strip (lit "  a b  ") = lit "a b".
Proof. repeat split. Qed.

End StrFacts.

(** ** The matcher *)

Section ReFacts.

Lemma search_none_inv (r : regex) (c : char) (s : str) :
  search r (c :: s) = None ->
  match_at false r (c :: s) = None /\ search r s = None.
Proof.
  cbn [search]. destruct (match_at false r (c :: s)) as [[n g]|];
    [discriminate|].
  destruct (search r s) as [[[i n] g]|]; [discriminate|now split].
Qed.

(** Without a match, [sub] returns its argument. *)
Lemma sub_no_match (r : regex) (repl : str -> groups -> str) (s : str) :
  search r s = None -> sub r repl s = s.
Proof.
  unfold sub. induction s as [|c s IH]; intros H.
  - cbn [search] in H. cbn [sub_go].
    destruct (match_at false r []) as [[n g]|]; [discriminate|reflexivity].
  - apply search_none_inv in H as [Hm Hs].
    cbn [sub_go]. rewrite Hm. now rewrite IH.
Qed.

Lemma str_strong_ind (P : str -> Prop) :
  (forall s, (forall t, length t < length s -> P t) -> P s) ->
  forall s, P s.
Proof.
  intros H s. remember (length s) as n eqn:Hn.
  revert s Hn. induction n as [n IH] using lt_wf_ind.
  intros s ->. apply H. intros t Ht. now apply (IH (length t)).
Qed.

(** What the matcher consumes is a prefix of the text. *)
Lemma star_inv (A : Type) (greedy : bool) (cs : cset) (s : str) (g : groups)
    (k : str -> groups -> option A) (x : A) :
  star greedy cs s g k = Some x ->
  exists pre post,
    s = pre ++ post /\ forallb (cset_mem cs) pre = true /\ k post g = Some x.
Proof.
  induction s as [|c s IH]; intros H.
  - exists [], []. destruct greedy; cbn in H.
    + now repeat split.
    + destruct (k [] g); [now repeat split|discriminate].
  - destruct greedy; cbn [star] in H.
    + destruct (cset_mem cs c) eqn:Hc.
      * cbn [star] in IH. destruct (star true cs s g k) as [y|] eqn:Hs.
        -- injection H as <-.
           destruct (IH eq_refl) as (pre & post & -> & Hp & Hk).
           exists (c :: pre), post. cbn [forallb app]. now rewrite Hc, Hp.
        -- exists [], (c :: s). now repeat split.
      * exists [], (c :: s). now repeat split.
    + destruct (k (c :: s) g) as [y|] eqn:Hk.
      * exists [], (c :: s). repeat split; congruence.
      * destruct (cset_mem cs c) eqn:Hc; [|discriminate].
        destruct (IH H) as (pre & post & -> & Hp & Hk').
        exists (c :: pre), post. cbn [forallb app]. now rewrite Hc, Hp.
Qed.

Lemma strip_prefix_inv (w s s' : str) :
  strip_prefix w s = Some s' -> s = w ++ s'.
Proof.
  revert s. induction w as [|a w IH]; intros s H.
  - cbn in H. now injection H as ->.
  - destruct s as [|b s]; cbn in H; [discriminate|].
    destruct (N.eqb_spec a b) as [->|]; [|discriminate].
    now rewrite (IH _ H).
Qed.

Lemma strip_prefix_app (w s : str) : strip_prefix w (w ++ s) = Some s.
Proof.
  induction w as [|a w IH]; [reflexivity|].
  cbn. now rewrite N.eqb_refl.
Qed.

Lemma length_app_minus (pre post : str) :
  length (pre ++ post) - length post = length pre.
Proof. rewrite length_app. lia. Qed.

Lemma consumed_app (pre post : str) : consumed (pre ++ post) post = pre.
Proof.
  unfold consumed. rewrite length_app_minus.
  now rewrite firstn_app, Nat.sub_diag, firstn_all, app_nil_r.
Qed.

(** The matcher is sound: when it succeeds, it has split the text into a
    text of the pattern and a rest, and has called its continuation on the
    rest with the groups of that text put in front. *)
Lemma rmatch_sound (A : Type) (r : regex) (s : str) (g : groups)
    (k : str -> groups -> option A) (x : A) :
  rmatch r s g k = Some x ->
  exists w post g',
    s = w ++ post /\ Matches r w g' /\ k post (g' ++ g) = Some x.
Proof.
  revert s g k.
  induction r as [w|cs|greedy cs|r1 IH1 r2 IH2|r1 IH1 r2 IH2|r IH|n r IH];
    intros s g k H; cbn [rmatch] in H.
  - destruct (strip_prefix w s) as [s'|] eqn:Hw; [|discriminate].
    apply strip_prefix_inv in Hw. exists w, s', []. repeat split; trivial.
    constructor.
  - destruct s as [|c s]; [discriminate|].
    destruct (cset_mem cs c) eqn:Hc; [|discriminate].
    exists [c], s, []. repeat split; trivial. now constructor.
  - destruct (star_inv _ _ _ _ _ _ _ H) as (pre & post & -> & Hp & Hk).
    exists pre, post, []. repeat split; trivial. now constructor.
  - destruct (IH1 _ _ _ H) as (w1 & post1 & g1 & -> & M1 & H1).
    destruct (IH2 _ _ _ H1) as (w2 & post2 & g2 & -> & M2 & H2).
    exists (w1 ++ w2), post2, (g2 ++ g1). rewrite <- !app_assoc.
    repeat split; trivial. now constructor.
  - destruct (rmatch r1 s g k) as [y|] eqn:H1.
    + injection H as <-.
      destruct (IH1 _ _ _ H1) as (w & post & g' & -> & M & Hk).
      exists w, post, g'. repeat split; trivial. now apply MAltL.
    + destruct (IH2 _ _ _ H) as (w & post & g' & -> & M & Hk).
      exists w, post, g'. repeat split; trivial. now apply MAltR.
  - destruct (rmatch r s g k) as [y|] eqn:H1.
    + injection H as <-.
      destruct (IH _ _ _ H1) as (w & post & g' & -> & M & Hk).
      exists w, post, g'. repeat split; trivial. now constructor.
    + exists [], s, []. repeat split; trivial. apply MOptNone.
  - destruct (IH _ _ _ H) as (w & post & g' & -> & M & Hk).
    rewrite consumed_app in Hk.
    exists w, post, ((n, w) :: g'). repeat split; trivial. now constructor.
Qed.

Lemma match_at_sound (adv : bool) (r : regex) (s : str) (n : nat)
    (g : groups) :
  match_at adv r s = Some (n, g) ->
  exists w post, s = w ++ post /\ n = length w /\ Matches r w g.
Proof.
  unfold match_at. intros H.
  destruct (rmatch_sound _ _ _ _ _ _ H) as (w & post & g' & -> & M & Hk).
  rewrite length_app_minus, app_nil_r in Hk.
  destruct (adv && Nat.eqb (length w) 0); [discriminate|].
  injection Hk as <- <-. now exists w, post.
Qed.

Lemma match_at_inv (adv : bool) (r : regex) (s : str) (n : nat) (g : groups) :
  match_at adv r s = Some (n, g) ->
  exists pre post, s = pre ++ post /\ n = length pre.
Proof.
  intros H. destruct (match_at_sound _ _ _ _ _ H) as (w & post & ? & ? & _).
  now exists w, post.
Qed.

Lemma sub_go_skip (r : regex) (repl : str -> groups -> str) (s : str)
    (n : nat) :
  n <= length s -> sub_go r repl s n = sub_go r repl (skipn n s) 0.
Proof.
  revert n. induction s as [|c s IH]; intros n Hn.
  - destruct n; [reflexivity|cbn in Hn; lia].
  - destruct n; [reflexivity|]. cbn [sub_go skipn]. apply IH.
    cbn in Hn. lia.
Qed.

(** One step of [sub]: a match that is not empty is replaced and the scan
    goes on behind it; a position without a match is copied. *)
Lemma sub_step_match (r : regex) (repl : str -> groups -> str) (s : str)
    (n : nat) (g : groups) :
  match_at false r s = Some (S n, g) ->
  sub r repl s = repl (firstn (S n) s) g ++ sub r repl (skipn (S n) s).
Proof.
  intros H. destruct (match_at_inv _ _ _ _ _ H) as (pre & post & Hs & Hn).
  assert (Hl : S n <= length s) by (rewrite Hs, length_app; lia).
  unfold sub. destruct s as [|c s]; [cbn in Hl; lia|].
  cbn [sub_go]. rewrite H. f_equal. cbn [skipn]. apply sub_go_skip.
  cbn in Hl. lia.
Qed.

Lemma sub_step_copy (r : regex) (repl : str -> groups -> str) (c : char)
    (s : str) :
  match_at false r (c :: s) = None ->
  sub r repl (c :: s) = c :: sub r repl s.
Proof. unfold sub. intros H. cbn [sub_go]. now rewrite H. Qed.

Lemma sub_nil (r : regex) (repl : str -> groups -> str) :
  match_at false r [] = None -> sub r repl [] = [].
Proof. unfold sub. intros H. cbn [sub_go]. now rewrite H. Qed.

(** The text in front of the first match is copied. *)
Lemma sub_skip_prefix (r : regex) (repl : str -> groups -> str)
    (pre s : str) :
  no_match_in r pre s = true -> sub r repl (pre ++ s) = pre ++ sub r repl s.
Proof.
  induction pre as [|c pre IH]; intros H; [reflexivity|].
  cbn [no_match_in] in H. cbn [app] in *.
  destruct (match_at false r (c :: pre ++ s)) eqn:Hm; [discriminate|].
  rewrite (sub_step_copy _ _ _ _ Hm). now rewrite IH.
Qed.

(** Literal patterns. *)
Lemma strip_prefix_startswith (w s : str) :
  strip_prefix w s
  = if startswith w s then Some (skipn (length w) s) else None.
Proof.
  revert s. induction w as [|a w IH]; intros s; [reflexivity|].
  destruct s as [|b s]; [reflexivity|]. cbn [strip_prefix startswith length skipn].
  destruct (N.eqb a b); [apply IH|reflexivity].
Qed.

Lemma match_at_lit (w s : str) :
  match_at false (RLit w) s
  = if startswith w s then Some (length w, []) else None.
Proof.
  unfold match_at. cbn [rmatch andb]. rewrite strip_prefix_startswith.
  destruct (startswith w s) eqn:E; [|reflexivity].
  apply startswith_split in E as [t ->].
  rewrite skipn_app, Nat.sub_diag, skipn_all. cbn [skipn app].
  now rewrite length_app_minus.
Qed.

Lemma search_lit (w s : str) :
  search (RLit w) s = None <-> contains w s = false.
Proof.
  induction s as [|c s IH]; cbn [search contains]; rewrite match_at_lit.
  - destruct (startswith w []); split; intros; (discriminate || reflexivity).
  - destruct (startswith w (c :: s)); cbn [orb].
    + split; discriminate.
    + rewrite <- IH.
      destruct (search (RLit w) s) as [[[i n] g]|]; split; intros;
        (discriminate || reflexivity).
Qed.

Lemma sub_match_app (r : regex) (repl : str -> groups -> str) (w post : str)
    (g : groups) :
  w <> [] ->
  match_at false r (w ++ post) = Some (length w, g) ->
  sub r repl (w ++ post) = repl w g ++ sub r repl post.
Proof.
  intros Hw Hm. destruct (length w) as [|n] eqn:Hn.
  - destruct w; [congruence|discriminate].
  - rewrite (sub_step_match _ _ _ _ _ Hm), <- Hn.
    rewrite firstn_app, skipn_app, Nat.sub_diag, firstn_all, skipn_all.
    cbn [firstn skipn app]. now rewrite app_nil_r.
Qed.

Lemma sub_lit_hit (w : str) (repl : str -> groups -> str) (t s : str) :
  w <> [] -> strip_prefix w t = Some s ->
  sub (RLit w) repl t = repl w [] ++ sub (RLit w) repl s.
Proof.
  intros Hw Hs. apply strip_prefix_inv in Hs as ->.
  apply sub_match_app; trivial.
  now rewrite match_at_lit, startswith_app.
Qed.

Lemma sub_lit_miss (w : str) (repl : str -> groups -> str) (c : char)
    (s : str) :
  startswith w (c :: s) = false ->
  sub (RLit w) repl (c :: s) = c :: sub (RLit w) repl s.
Proof.
  intros H. apply sub_step_copy. now rewrite match_at_lit, H.
Qed.

Lemma sub_lit_nil (w : str) (repl : str -> groups -> str) :
  w <> [] -> sub (RLit w) repl [] = [].
Proof.
  intros H. apply sub_nil. rewrite match_at_lit. now destruct w.
Qed.

(** The lazy star in front of a literal stops at the first place where the
    literal begins. *)
Lemma star_lazy_first (A : Type) (cs : cset) (pre post : str) (g : groups)
    (k : str -> groups -> option A) (x : A) :
  forallb (cset_mem cs) pre = true ->
  (forall a b, pre = a ++ b -> b <> [] -> k (b ++ post) g = None) ->
  k post g = Some x ->
  star false cs (pre ++ post) g k = Some x.
Proof.
  intros Hmem Hfail Hk. induction pre as [|c pre IH].
  - cbn [app]. destruct post; cbn [star]; now rewrite Hk.
  - cbn [forallb] in Hmem. apply andb_true_iff in Hmem as [Hc Hmem].
    cbn [app star].
    assert (H0 : k (c :: pre ++ post) g = None)
      by (apply (Hfail [] (c :: pre) eq_refl); discriminate).
    rewrite H0, Hc. apply IH; trivial.
    intros a b -> Hb. now apply (Hfail (c :: a) b).
Qed.

Lemma no_start_in_spec (w pre tail : str) :
  no_start_in w pre tail = true ->
  forall a b, pre = a ++ b -> b <> [] -> startswith w (b ++ tail) = false.
Proof.
  induction pre as [|c pre IH]; intros H a b Hab Hb.
  - destruct a, b; try discriminate. congruence.
  - cbn [no_start_in] in H. apply andb_true_iff in H as [H1 H2].
    apply negb_true_iff in H1. destruct a as [|c' a].
    + cbn [app] in Hab. now subst b.
    + injection Hab as <- ->. now apply (IH H2 a b).
Qed.

Lemma lazy_group_then_lit (A : Type) (n : nat) (d : bool) (w : str)
    (r : regex) (pre post : str) (g : groups)
    (K : str -> groups -> option A) (x : A) :
  forallb (cset_mem (CAny d)) pre = true ->
  no_start_in w pre (w ++ post) = true ->
  rmatch r post ((n, pre) :: g) K = Some x ->
  rmatch (RSeq (RGroup n (RStar false (CAny d))) (RSeq (RLit w) r))
    (pre ++ w ++ post) g K = Some x.
Proof.
  intros Hmem Hno Hr. cbn [rmatch].
  apply star_lazy_first; trivial.
  - intros a b Hab Hb. rewrite strip_prefix_startswith.
    now rewrite (no_start_in_spec _ _ _ Hno a b Hab Hb).
  - now rewrite strip_prefix_app, consumed_app.
Qed.

Lemma any_dotall (s : str) : forallb (cset_mem (CAny true)) s = true.
Proof. induction s; [reflexivity|exact IHs]. Qed.

(** Empty matches: with the pattern [[^ab]*?] the text [axxb] becomes
    [-a-----b-], with [[^ab]*] it becomes [-a--b-]. *)
Example sub_empty_matches :
  sub (RStar false (CNotIn (lit "ab"))) (fun _ _ => lit "-") (lit "axxb")
  = lit "-a-----b-"
  /\ sub (RStar true (CNotIn (lit "ab"))) (fun _ _ => lit "-") (lit "axxb")
     = lit "-a--b-".
Proof. split; reflexivity. Qed.

End ReFacts.

(** ** No-op on absence *)

(** C1, as it holds: every rule but the timestamp rule returns a document
    unchanged when the document has no instance of what the rule looks for. *)
Theorem rule_noop_on_absence (config : Config) (filename : str) (r : rule)
    (D : str) :
  r <> Timestamp -> target_absent r D -> apply_rule config filename r D = D.
Proof.
  intros Hr H.
  destruct r; cbn [apply_rule target_absent] in *; try congruence;
    try (now apply sub_no_match).
  now apply replace_all_absent.
Qed.

Lemma rule_noop_on_absence_witness :
  Forall (fun r => apply_rule cfg0 (lit "a.tex") r plain_doc = plain_doc)
         [Figure; Simple; Labels; Code; Longtable; TableFormat; Math; Pandoc].
Proof.
  repeat (apply Forall_cons;
          [apply rule_noop_on_absence; [discriminate | vm_compute; reflexivity]|]).
  apply Forall_nil.
Defined.

(** C1, as stated, fails for the timestamp rule: a document without any
    timestamp line is not returned unchanged, the new comment is put in
    front of it. *)
Lemma timestamp_rule_not_noop :
  target_absent Timestamp (lit "abc")
  /\ apply_rule cfg0 (lit "a.tex") Timestamp (lit "abc")
     = lit "% ju 26-Nov-24 a.tex" ++ nl ++ lit "abc"
  /\ apply_rule cfg0 (lit "a.tex") Timestamp (lit "abc") <> lit "abc".
Proof.
  split; [reflexivity|]. split; [reflexivity|]. vm_compute. discriminate.
Qed.

(** ** Column count *)

(** C4: the column count is the number of [&] divided (integer division) by
    the number of row ends, plus one, and 1 when there is no row end; the
    divisor is not zero when the division is done; five separators and two
    row ends give 3. *)
Theorem calculate_columns_spec (content : str) :
  (contains row_end content = false -> _calculate_columns content = 1%Z)
  /\ (contains row_end content = true ->
      _calculate_columns content
      = (Z.of_nat (count cell_sep content) / Z.of_nat (count row_end content)
         + 1)%Z)
  /\ (contains row_end content = true -> count row_end content <> 0)
  /\ (count cell_sep content = 5 -> count row_end content = 2 ->
      _calculate_columns content = 3%Z).
Proof.
  unfold _calculate_columns. repeat split.
  - now intros ->.
  - now intros ->.
  - apply contains_count_pos. discriminate.
  - intros H5 H2.
    rewrite (count_pos_contains row_end content) by (rewrite H2; discriminate).
    cbn [negb]. now rewrite H5, H2.
Qed.

Lemma calculate_columns_spec_witness :
  count cell_sep rows_5_2 = 5 /\ count row_end rows_5_2 = 2
  /\ _calculate_columns rows_5_2 = 3%Z
  /\ _calculate_columns (lit "a & b") = 1%Z.
Proof.
  split; [reflexivity|]. split; [reflexivity|]. split.
  - destruct (calculate_columns_spec rows_5_2) as (_ & _ & _ & H).
    apply H; reflexivity.
  - destruct (calculate_columns_spec (lit "a & b")) as (H & _).
    apply H; reflexivity.
Defined.

(** ** The orchestrator *)

Section Orchestration.

Lemma apply_transformations_app (pre post : list transformation)
    (content : str) (l : log) :
  apply_transformations (pre ++ post) content l
  = apply_transformations post
      (fst (apply_transformations pre content l))
      (snd (apply_transformations pre content l)).
Proof.
  revert content l. induction pre as [|t pre IH]; intros content l.
  - reflexivity.
  - cbn [app apply_transformations].
    destruct (transform_func t content); apply IH.
Qed.

(** C2: when the transformation at some position of the chain raises, the
    next transformation receives the text from before the failing one, the
    failure is logged under the rule's name, and the rest of the chain is
    applied. *)
Theorem failing_transformation_is_skipped (pre post : list transformation)
    (t : transformation) (content : str) (l : log) (e : exn) :
  transform_func t (fst (apply_transformations pre content l)) = Raise e ->
  apply_transformations (pre ++ t :: post) content l
  = apply_transformations post
      (fst (apply_transformations pre content l))
      (snd (apply_transformations pre content l)
       ++ [Error_transformation (transform_name t) e]).
Proof.
  intros H. rewrite apply_transformations_app.
  cbn [apply_transformations]. now rewrite H.
Qed.

Lemma failing_transformation_is_skipped_witness :
  apply_transformations (rules_before ++ raising_rule :: rules_after)
    (lit "``a'' \(x\)") []
  = (lit ">>a<< $x$",
     [Error_transformation "_convert_code_blocks" (Exception "bad delimiter")]).
Proof.
  rewrite (failing_transformation_is_skipped rules_before rules_after
             raising_rule (lit "``a'' \(x\)") [] (Exception "bad delimiter"));
    reflexivity.
Defined.

Lemma apply_transformations_log (ts : list transformation) (content : str)
    (l : log) :
  apply_transformations ts content l
  = (fst (apply_transformations ts content []),
     l ++ snd (apply_transformations ts content [])).
Proof.
  revert content l. induction ts as [|t ts IH]; intros content l.
  - cbn. now rewrite app_nil_r.
  - cbn [apply_transformations]. destruct (transform_func t content) as [c'|e].
    + apply IH.
    + rewrite (IH content (l ++ _)), (IH content ([] ++ _)).
      cbn [fst snd app]. now rewrite <- app_assoc.
Qed.

Lemma apply_transformations_errors (ts : list transformation) (content : str) :
  forallb is_rule_error (snd (apply_transformations ts content [])) = true.
Proof.
  revert content. induction ts as [|t ts IH]; intros content.
  - reflexivity.
  - cbn [apply_transformations]. destruct (transform_func t content) as [c'|e].
    + apply IH.
    + rewrite apply_transformations_log. cbn [snd app forallb is_rule_error].
      apply IH.
Qed.

(** The rule errors in the log are the failures of the chain, one entry
    for each, in their order. *)
Lemma apply_transformations_failures (ts : list transformation)
    (content : str) :
  snd (apply_transformations ts content [])
  = map rule_error (rule_failures ts content).
Proof.
  revert content. induction ts as [|t ts IH]; intros content.
  - reflexivity.
  - cbn [apply_transformations rule_failures].
    destruct (transform_func t content) as [c'|e].
    + apply IH.
    + rewrite apply_transformations_log. cbn [snd app map]. now rewrite IH.
Qed.

(** A failure of the chain is a transformation at some position that raised
    on the text which the transformations in front of it had made. *)
Lemma rule_failures_spec (ts : list transformation) (content : str)
    (name : string) (e : exn) :
  In (name, e) (rule_failures ts content) <->
  exists pre t post,
    ts = pre ++ t :: post /\ transform_name t = name
    /\ transform_func t (fst (apply_transformations pre content [])) = Raise e.
Proof.
  revert content. induction ts as [|t0 ts IH]; intros content.
  - split; [intros []|]. intros (pre & t & post & H & _).
    now destruct pre.
  - cbn [rule_failures]. split.
    + destruct (transform_func t0 content) as [c'|e0] eqn:E.
      * intros H. apply IH in H as (pre & t & post & -> & Hn & Hr).
        exists (t0 :: pre), t, post. repeat split; [exact Hn|].
        cbn [apply_transformations]. now rewrite E.
      * intros [H|H].
        -- injection H as <- <-. exists [], t0, ts. now repeat split.
        -- apply IH in H as (pre & t & post & -> & Hn & Hr).
           exists (t0 :: pre), t, post. repeat split; [exact Hn|].
           cbn [apply_transformations]. rewrite E.
           now rewrite apply_transformations_log.
    + intros (pre & t & post & Hts & Hn & Hr).
      destruct pre as [|t1 pre]; cbn [app] in Hts; injection Hts as <- ->.
      * cbn [apply_transformations fst] in Hr. rewrite Hr. left.
        now rewrite Hn.
      * cbn [apply_transformations] in Hr.
        destruct (transform_func t0 content) as [c'|e0].
        -- apply IH. now exists pre, t, post.
        -- right. apply IH. exists pre, t, post. repeat split; [exact Hn|].
           now rewrite apply_transformations_log in Hr.
Qed.

Section Run.

Variable chain : str -> list transformation.

(** What one file adds to the log does not depend on the run so far. *)
Lemma process_single_file_log (f : tex_file) (st : run_state) :
  run_log (process_single_file_with chain f st)
  = run_log st ++ file_entries chain f.
Proof.
  unfold file_entries, process_single_file_with, empty_state.
  cbn [run_log app].
  destruct (read_text f) as [content|e]; cbn [run_log].
  - rewrite (apply_transformations_log _ content (run_log st ++ _)).
    rewrite (apply_transformations_log _ content [_]).
    destruct (write_text f _); cbn [run_log app];
      now rewrite <- !app_assoc.
  - now rewrite <- app_assoc.
Qed.

Lemma process_all_log (files : list tex_file) (st : run_state) :
  run_log (fold_left (fun s f => process_single_file_with chain f s) files st)
  = run_log st ++ flat_map (file_entries chain) files.
Proof.
  revert st. induction files as [|f files IH]; intros st; cbn [fold_left flat_map].
  - now rewrite app_nil_r.
  - now rewrite IH, process_single_file_log, <- app_assoc.
Qed.

(** The entries of a file: its start, the rules that failed, one closing
    entry; the closing entry reports success whenever the file could be read
    and written, whether or not a rule failed. *)
Lemma file_entries_shape (f : tex_file) :
  exists errs last,
    file_entries chain f = Info_processing (file_name f) :: errs ++ [last]
    /\ forallb is_rule_error errs = true
    /\ closes (file_name f) last
    /\ (forall content,
          read_text f = Ok content ->
          write_text f
            (fst (apply_transformations (chain (file_name f)) content []))
          = None ->
          last = Info_success (file_name f))
    /\ errs = match read_text f with
              | Ok content =>
                  map rule_error (rule_failures (chain (file_name f)) content)
              | Raise _ => []
              end.
Proof.
  unfold file_entries, process_single_file_with, empty_state.
  cbn [run_log app].
  destruct (read_text f) as [content|e] eqn:Hr.
  - rewrite (apply_transformations_log _ content [_]).
    set (out := apply_transformations (chain (file_name f)) content []).
    destruct (write_text f (fst out)) as [x|] eqn:Hw; cbn [run_log app].
    + exists (snd out), (Error_file (file_name f) x).
      split; [reflexivity|]. split; [apply apply_transformations_errors|].
      split; [right; now exists x|]. split.
      * intros c Hc Hn. injection Hc as <-. fold out in Hn. congruence.
      * apply apply_transformations_failures.
    + exists (snd out), (Info_success (file_name f)).
      split; [reflexivity|]. split; [apply apply_transformations_errors|].
      split; [now left|]. split; [reflexivity|].
      apply apply_transformations_failures.
  - exists [], (Error_file (file_name f) e).
    split; [reflexivity|]. split; [reflexivity|].
    split; [right; now exists e|]. split; [discriminate|reflexivity].
Qed.

Lemma logged_counts_app (l1 l2 : log) :
  logged_counts (l1 ++ l2) = logged_counts l1 ++ logged_counts l2.
Proof. apply flat_map_app. Qed.

Lemma logged_counts_rule_errors (l : log) :
  forallb is_rule_error l = true -> logged_counts l = [].
Proof.
  induction l as [|e l IH]; [reflexivity|]. cbn [forallb].
  intros H. apply andb_true_iff in H as [He Hl].
  destruct e; try discriminate. cbn. now apply IH.
Qed.

Lemma logged_counts_file (f : tex_file) :
  logged_counts (file_entries chain f) = [].
Proof.
  destruct (file_entries_shape f) as (errs & last & -> & He & Hc & _).
  change (Info_processing (file_name f) :: errs ++ [last])
    with ([Info_processing (file_name f)] ++ errs ++ [last]).
  rewrite !logged_counts_app, (logged_counts_rule_errors _ He).
  destruct Hc as [->|[x ->]]; reflexivity.
Qed.

Lemma logged_counts_files (files : list tex_file) :
  logged_counts (flat_map (file_entries chain) files) = [].
Proof.
  induction files as [|f files IH]; [reflexivity|].
  cbn [flat_map]. now rewrite logged_counts_app, logged_counts_file, IH.
Qed.

(** C9, as it holds: a run over a directory with matching files returns,
    and its log is the directory, the number of files found, and for every
    file its start, one entry for each rule that failed on it (each
    transformation of the chain that raised on the text it received, in the
    order of the chain; none when the file could not be read) and one
    closing entry, which reports success whenever the file was read and
    written; the number of files found is the only count in the log. *)
Theorem run_report (dir_name : string) (d : directory) :
  chdir d = None -> glob_tex d <> [] ->
  let run := process_files_with chain dir_name d empty_state in
  snd run = Returned
  /\ run_log (fst run)
     = Info_directory dir_name :: Info_found (length (glob_tex d))
       :: flat_map (file_entries chain) (glob_tex d)
  /\ logged_counts (run_log (fst run)) = [length (glob_tex d)]
  /\ Forall (fun f =>
       exists errs last,
         file_entries chain f = Info_processing (file_name f) :: errs ++ [last]
         /\ forallb is_rule_error errs = true
         /\ closes (file_name f) last
         /\ (forall content,
               read_text f = Ok content ->
               write_text f
                 (fst (apply_transformations (chain (file_name f)) content []))
               = None ->
               last = Info_success (file_name f))
         /\ errs = match read_text f with
                   | Ok content =>
                       map rule_error
                         (rule_failures (chain (file_name f)) content)
                   | Raise _ => []
                   end)
       (glob_tex d)
  /\ (forall ts content name e,
        In (name, e) (rule_failures ts content) <->
        exists pre t post,
          ts = pre ++ t :: post /\ transform_name t = name
          /\ transform_func t (fst (apply_transformations pre content []))
             = Raise e).
Proof.
  intros Hc Hf. unfold process_files_with, empty_state. rewrite Hc.
  destruct (glob_tex d) as [|f files] eqn:Hg; [congruence|].
  cbn [fst snd run_log run_written app].
  assert (Hlog :
    run_log (fold_left (fun s f0 => process_single_file_with chain f0 s)
               (f :: files)
               {| run_log := [Info_directory dir_name;
                              Info_found (length (f :: files))];
                  run_written := [] |})
    = Info_directory dir_name :: Info_found (length (f :: files))
      :: flat_map (file_entries chain) (f :: files)).
  { now rewrite process_all_log. }
  split; [reflexivity|]. split; [exact Hlog|]. split; [|split].
  - rewrite Hlog.
    change (Info_directory dir_name :: Info_found (length (f :: files))
            :: flat_map (file_entries chain) (f :: files))
      with ([Info_directory dir_name; Info_found (length (f :: files))]
            ++ flat_map (file_entries chain) (f :: files)).
    now rewrite logged_counts_app, logged_counts_files.
  - apply Forall_forall. intros f0 _. apply file_entries_shape.
  - apply rule_failures_spec.
Qed.

End Run.

Lemma run_report_witness :
  logged_counts
    (run_log (fst (process_files_with chain_with_failure "./tex" two_files
                     empty_state)))
  = [2].
Proof.
  destruct (run_report chain_with_failure "./tex" two_files eq_refl)
    as (_ & _ & H & _); [discriminate|exact H].
Defined.

(** A run in which a rule fails on [a.tex] and [b.tex] cannot be read. *)
Example run_with_failures :
  main_with chain_with_failure "./tex" two_files
  = ({| run_log :=
          [Info_directory "./tex"; Info_found 2;
           Info_processing (lit "a.tex");
           Error_transformation "_convert_code_blocks" (Exception "bad delimiter");
           Info_success (lit "a.tex");
           Info_processing (lit "b.tex");
           Error_file (lit "b.tex") (Exception "UnicodeDecodeError");
           Info_finished];
        run_written := [(lit "a.tex", lit ">>a<< $x+y$")] |}, Returned).
Proof. reflexivity. Qed.

(** C9, as stated, fails: in a run of the script over two files of which one
    is transformed and one cannot be read, the log states the number of
    files found and nothing else; the number of files transformed is not in
    it. *)
Lemma no_count_of_successes :
  let run := main "./tex" (lit "26-Nov-24") two_files in
  snd run = Returned
  /\ length (glob_tex two_files) = 2
  /\ length (filter (fully_transformed (transformations cfg0))
               (glob_tex two_files)) = 1
  /\ logged_counts (run_log (fst run)) = [2]
  /\ ~ In 1 (logged_counts (run_log (fst run))).
Proof.
  vm_compute. repeat split; try reflexivity.
  intros [H|[]]. discriminate.
Qed.

End Orchestration.

(** ** Math delimiters *)

Section MathDelimiters.

Lemma match_at_math (c d : char) (s : str) :
  match_at false _math_pattern (c :: d :: s)
  = if N.eqb c 92 && (N.eqb d 40 || N.eqb d 41) then Some (2, []) else None.
Proof.
  unfold match_at, _math_pattern.
  change (lit "\(") with [92; 40]%N. change (lit "\)") with [92; 41]%N.
  cbn [rmatch strip_prefix].
  rewrite (N.eqb_sym 92 c), (N.eqb_sym 40 d), (N.eqb_sym 41 d).
  destruct (N.eqb c 92), (N.eqb d 40), (N.eqb d 41); cbn [andb orb];
    try reflexivity; do 2 f_equal; cbn [length]; lia.
Qed.

Lemma match_at_math_short (s : str) :
  length s < 2 -> match_at false _math_pattern s = None.
Proof.
  unfold match_at, _math_pattern.
  change (lit "\(") with [92; 40]%N. change (lit "\)") with [92; 41]%N.
  destruct s as [|c [|d s]]; cbn [length]; try lia; intros _.
  - reflexivity.
  - cbn [rmatch strip_prefix]. now destruct (N.eqb 92 c).
Qed.

(** C6: the rule replaces every [\(] and every [\)] by [$], each on its
    own, and copies every other character; [\(x+y\)] becomes [$x+y$]. *)
Theorem convert_math_delimiters_spec :
  (forall content : str,
     _convert_math_delimiters content = dollar_delimiters content)
  /\ _convert_math_delimiters (lit "\(x+y\)") = lit "$x+y$".
Proof.
  split; [|reflexivity].
  unfold _convert_math_delimiters.
  induction content as [s IH] using str_strong_ind.
  destruct s as [|c [|d s]].
  - apply sub_nil. apply match_at_math_short. cbn; lia.
  - rewrite sub_step_copy by (apply match_at_math_short; cbn; lia).
    rewrite sub_nil by (apply match_at_math_short; cbn; lia). reflexivity.
  - cbn [dollar_delimiters].
    pose proof (match_at_math c d s) as Hm.
    destruct (N.eqb c 92 && (N.eqb d 40 || N.eqb d 41)).
    + rewrite (sub_step_match _ _ _ _ _ Hm). cbn [skipn app].
      change (lit "$") with [36%N]. cbn [app]. f_equal.
      apply IH. cbn [length]. lia.
    + rewrite (sub_step_copy _ _ _ _ Hm). f_equal.
      apply (IH (d :: s)). cbn [length]. lia.
Qed.

End MathDelimiters.

(** ** Labels *)

Ltac inv_matches :=
  repeat match goal with
    | H : Matches (RSeq _ _) _ _ |- _ => inversion H; subst; clear H
    | H : Matches (RLit _) _ _ |- _ => inversion H; subst; clear H
    | H : Matches (RGroup _ _) _ _ |- _ => inversion H; subst; clear H
    | H : Matches (RStar _ _) _ _ |- _ => inversion H; subst; clear H
    | H : Matches (RSet _) _ _ |- _ => inversion H; subst; clear H
    | H : Matches (RAlt _ _) _ _ |- _ => inversion H; subst; clear H
    | H : Matches (ROpt _) _ _ |- _ => inversion H; subst; clear H
    end.

Section Labels.

Variable config : Config.

Lemma search_cons_none (r : regex) (c : char) (s : str) :
  match_at false r (c :: s) = None -> search r s = None ->
  search r (c :: s) = None.
Proof. intros Hm Hs. cbn [search]. now rewrite Hm, Hs. Qed.







End Labels.

(** ** Figures *)

Section Figures.

Variable config : Config.

(** A match of the figure pattern: the opening with [\centering], the
    command, the options in brackets if there are any, the path in braces;
    the groups are these four texts. *)
Lemma figure_match_inv (w : str) (g : groups) :
  Matches _figure_pattern w g ->
  exists ws1 ws2 body (o : option str),
    let before :=
      lit "\begin{figure}" ++ ws1 ++ lit "\centering" ++ ws2 in
    let options :=
      match o with
      | Some b => Some (lit "[" ++ b ++ lit "]")
      | None => None
      end in
    let path := lit "{" ++ body ++ lit "}" in
    w = before ++ lit "\includegraphics" ++
        match options with Some t => t | None => [] end ++ path
    /\ group 1 g = Some before
    /\ group 2 g = Some (lit "\includegraphics")
    /\ group 3 g = options
    /\ group 4 g = Some path.
Proof.
  unfold _figure_pattern, seq, spaces, lazy_any. cbn [fold_right].
  intros H.
  inv_matches;
    match goal with
    | |- exists _ _ _ _,
           (_ ++ ?a ++ _ ++ ?b ++ []) ++ _ ++ (_ ++ ?o ++ _) ++ (_ ++ ?p ++ _) ++ []
           = _ /\ _ =>
        exists a, b, p, (Some o)
    | |- exists _ _ _ _,
           (_ ++ ?a ++ _ ++ ?b ++ []) ++ _ ++ [] ++ (_ ++ ?p ++ _) ++ []
           = _ /\ _ =>
        exists a, b, p, None
    end;
    cbn [app group Nat.eqb]; rewrite ?app_nil_r, <- ?app_assoc;
    repeat split.
Qed.

Lemma firstn_skipn_app (w post : str) :
  firstn (length w) (w ++ post) = w /\ skipn (length w) (w ++ post) = post.
Proof.
  rewrite firstn_app, skipn_app, Nat.sub_diag, firstn_all, skipn_all.
  cbn. now rewrite app_nil_r.
Qed.

(** C7, as it holds: for every block that the figure pattern matches (the
    first match behind a text without match), the rule copies the text and
    puts in place of the block: the block with the default options inserted
    when the command has no bracket; the block with the default options
    added behind the options of the bracket, all of them kept, when the
    text of the bracket has neither [width=] nor [height=] in it (the test
    of the code, on substrings); the block as it is otherwise; and in
    each case the two comment lines behind the path.  The default options
    of the default configuration are width 0.8, height 0.6 and
    keepaspectratio. *)
Theorem figure_block_normalised (text s : str) (n : nat) (g : groups) :
  no_match_in _figure_pattern text s = true ->
  match_at false _figure_pattern s = Some (n, g) ->
  exists before path,
    group 1 g = Some before /\ group 4 g = Some path
    /\ _update_figure_environment config (text ++ s)
       = text ++ _repl_figure config (firstn n s) g
         ++ _update_figure_environment config (skipn n s)
    /\ match group 3 g with
       | None =>
           firstn n s = before ++ lit "\includegraphics" ++ path
           /\ _repl_figure config (firstn n s) g
              = before ++ lit "\includegraphics"
                ++ _create_image_options config ++ path ++ figure_trailer
       | Some options =>
           exists body,
             options = lit "[" ++ body ++ lit "]"
             /\ firstn n s = before ++ lit "\includegraphics" ++ options ++ path
             /\ _repl_figure config (firstn n s) g
                = before ++ lit "\includegraphics"
                  ++ (if width_or_height options then options
                      else lit "[" ++ body ++ lit ","
                           ++ tl (_create_image_options config))
                  ++ path ++ figure_trailer
       end
    /\ figure_trailer = nl ++ lit "%\floatnotes{}" ++ nl ++ lit "%\label{fig:}"
    /\ forall dir now,
         _create_image_options (create_default dir now)
         = lit "[width=0.8\textwidth,height=0.6\textheight,keepaspectratio]".
Proof.
  intros Htext Hm.
  destruct (match_at_sound _ _ _ _ _ Hm) as (w & post & Hs & Hn & HM).
  destruct (figure_match_inv _ _ HM)
    as (ws1 & ws2 & body & o & Hw & G1 & G2 & G3 & G4).
  cbn zeta in *.
  assert (Hfirst : firstn n s = w)
    by (rewrite Hs, Hn; apply firstn_skipn_app).
  eexists _, _. split; [exact G1|]. split; [exact G4|]. split; [|split].
  - unfold _update_figure_environment.
    rewrite sub_skip_prefix by exact Htext. f_equal.
    destruct n as [|n]; [|now apply sub_step_match].
    exfalso. rewrite Hw, !length_app in Hn. cbn in Hn. lia.
  - rewrite G3, Hfirst. unfold _repl_figure. rewrite G1, G2, G3, G4.
    destruct o as [b|].
    + exists b. split; [reflexivity|]. split; [exact Hw|].
      unfold width_or_height. cbn [fmt].
      change (lit "[" ++ b ++ lit "]") with (91%N :: b ++ lit "]") at 1.
      cbv iota.
      change (91%N :: b ++ lit "]") with (lit "[" ++ b ++ lit "]").
      destruct (contains (lit "width=") (lit "[" ++ b ++ lit "]")),
               (contains (lit "height=") (lit "[" ++ b ++ lit "]"));
        cbn [negb andb orb]; try reflexivity.
      rewrite (app_assoc (lit "[") b (lit "]")).
      change (lit "]") with [93%N]. rewrite removelast_last.
      now rewrite <- !app_assoc.
    + split; [exact Hw|]. reflexivity.
  - split; reflexivity.
Qed.

End Figures.

Lemma figure_block_normalised_witness :
  _update_figure_environment cfg0 (figure_intro ++ figure_plain)
  = lit "Ein Bild:" ++ nl ++
    lit "\begin{figure}" ++ nl ++ lit "\centering" ++ nl ++
    lit "\includegraphics[width=0.8\textwidth,height=0.6\textheight,keepaspectratio]{bild.png}"
    ++ nl ++ lit "%\floatnotes{}" ++ nl ++ lit "%\label{fig:}" ++ nl ++
    lit "\end{figure}".
Proof.
  destruct (figure_block_normalised cfg0 figure_intro figure_plain 52
              [(4, lit "{bild.png}"); (2, lit "\includegraphics");
               (1, lit "\begin{figure}" ++ nl ++ lit "\centering" ++ nl)]
              eq_refl eq_refl)
    as (before & path & _ & _ & H & _).
  rewrite H. reflexivity.
Defined.

(** C7, as stated, fails: the bracket holds neither a width key nor a
    height key, its one key is [totalheight], and the rule adds nothing to
    it, because [height=] is in its text. *)
Lemma totalheight_gets_no_defaults :
  option_keys (lit "totalheight=3cm") = [lit "totalheight"]
  /\ has_key "width" (lit "totalheight=3cm") = false
  /\ has_key "height" (lit "totalheight=3cm") = false
  /\ _update_figure_environment cfg0 figure_totalheight
     = lit "\begin{figure}" ++ nl ++ lit "\centering" ++ nl ++
       lit "\includegraphics[totalheight=3cm]{bild.png}"
       ++ nl ++ lit "%\floatnotes{}" ++ nl ++ lit "%\label{fig:}" ++ nl ++
       lit "\end{figure}".
Proof. repeat split. Qed.

(** The other way round, a width key that is not spelt [width=] does not
    keep the default options away. *)
Example width_with_blank_gets_defaults :
  has_key "width" (lit "width =3cm") = true
  /\ _update_figure_environment cfg0 figure_width_blank
     = lit "\begin{figure}" ++ nl ++ lit "\centering" ++ nl ++
       lit "\includegraphics[width =3cm,width=0.8\textwidth,height=0.6\textheight,keepaspectratio]{bild.png}"
       ++ nl ++ lit "%\floatnotes{}" ++ nl ++ lit "%\label{fig:}" ++ nl ++
       lit "\end{figure}".
Proof. repeat split. Qed.

(** The three cases of the rule on whole documents. *)
Example figure_examples :
  _update_figure_environment cfg0 figure_alt
  = lit "\begin{figure}" ++ nl ++ lit "\centering" ++ nl ++
    lit "\includegraphics[keepaspectratio,alt={Bild},width=0.8\textwidth,height=0.6\textheight,keepaspectratio]{bild.png}"
    ++ nl ++ lit "%\floatnotes{}" ++ nl ++ lit "%\label{fig:}" ++ nl ++
    lit "\end{figure}"
  /\ _update_figure_environment cfg0 figure_width
     = lit "\begin{figure}" ++ nl ++ lit "\centering" ++ nl ++
       lit "\includegraphics[width=3cm]{bild.png}"
       ++ nl ++ lit "%\floatnotes{}" ++ nl ++ lit "%\label{fig:}" ++ nl ++
       lit "\end{figure}".
Proof. split; reflexivity. Qed.


(** ** The timestamp comment *)

Section Lines.

Lemma single_line_app (a b : str) :
  single_line (a ++ b) = single_line a && single_line b.
Proof. apply forallb_app. Qed.

Lemma single_line_cons (c : char) (l : str) :
  single_line (c :: l) = true ->
  is_linebreak c = false /\ single_line l = true.
Proof.
  cbn [single_line forallb]. intros H. apply andb_true_iff in H as [Hc Hl].
  split; [now apply negb_true_iff in Hc|exact Hl].
Qed.

(** The lines of [splitlines] hold no line boundary. *)
Lemma splitlines_single_line (s : str) :
  Forall (fun l => single_line l = true) (splitlines s).
Proof.
  induction s as [s IH] using str_strong_ind.
  destruct s as [|c s]; [constructor|]. cbn [splitlines].
  destruct (is_linebreak c) eqn:Hc.
  - destruct s as [|d s]; [repeat constructor|].
    destruct (N.eqb c CR && N.eqb d LF); constructor; trivial;
      apply IH; cbn; lia.
  - assert (Hs : Forall (fun l => single_line l = true) (splitlines s))
      by (apply IH; cbn; lia).
    destruct (splitlines s) as [|l ls].
    + constructor; [|constructor]. cbn [single_line forallb]. now rewrite Hc.
    + apply Forall_cons_iff in Hs as [Hl Hls]. constructor; trivial.
      cbn [single_line forallb]. now rewrite Hc.
Qed.

Lemma splitlines_line_nl (l rest : str) :
  single_line l = true -> splitlines (l ++ LF :: rest) = l :: splitlines rest.
Proof.
  induction l as [|c l IH]; intros H.
  - cbn [app splitlines]. change (is_linebreak LF) with true. cbv iota.
    change (N.eqb LF CR) with false. cbn [andb]. now destruct rest.
  - apply single_line_cons in H as [Hc Hl].
    cbn [app splitlines]. now rewrite Hc, (IH Hl).
Qed.

Lemma splitlines_one_line (l : str) :
  single_line l = true ->
  splitlines l = match l with [] => [] | _ :: _ => [l] end.
Proof.
  induction l as [|c l IH]; intros H; [reflexivity|].
  apply single_line_cons in H as [Hc Hl].
  cbn [splitlines]. rewrite Hc, (IH Hl). now destruct l.
Qed.

(** Joining lines and splitting again gives the lines back, but for an
    empty last line. *)
Lemma splitlines_join (ls : list str) :
  Forall (fun l => single_line l = true) ls ->
  splitlines (join nl ls) = drop_last_empty ls.
Proof.
  induction ls as [|l ls IH]; intros H; [reflexivity|].
  apply Forall_cons_iff in H as [Hl Hls].
  destruct ls as [|l' ls].
  - cbn [join drop_last_empty]. now apply splitlines_one_line.
  - change (join nl (l :: l' :: ls)) with (l ++ LF :: join nl (l' :: ls)).
    rewrite (splitlines_line_nl _ _ Hl), (IH Hls). reflexivity.
Qed.

Lemma drop_last_empty_incl (ls : list str) (l : str) :
  In l (drop_last_empty ls) -> In l ls.
Proof.
  induction ls as [|a ls IH]; [trivial|].
  destruct ls as [|b ls].
  - cbn. destruct a; [intros []|trivial].
  - change (drop_last_empty (a :: b :: ls))
      with (a :: drop_last_empty (b :: ls)).
    intros [->|H]; [now left|right; now apply IH].
Qed.

Lemma drop_last_empty_cons (b : str) (ls : list str) :
  b <> [] -> drop_last_empty (b :: ls) = b :: drop_last_empty ls.
Proof. destruct ls; [|reflexivity]. destruct b; [congruence|reflexivity]. Qed.

Lemma filter_id (A : Type) (f : A -> bool) (l : list A) :
  (forall x, In x l -> f x = true) -> filter f l = l.
Proof.
  induction l as [|a l IH]; intros H; [reflexivity|].
  cbn. rewrite (H a) by now left. f_equal. apply IH.
  intros x Hx. apply H. now right.
Qed.

Lemma filter_none (A : Type) (f : A -> bool) (l : list A) :
  (forall x, In x l -> f x = false) -> filter f l = [].
Proof.
  induction l as [|a l IH]; intros H; [reflexivity|].
  cbn. rewrite (H a) by now left. apply IH.
  intros x Hx. apply H. now right.
Qed.

(** A line that begins with the marker is a line that the rule drops. *)
Lemma rstrip_keeps_head (c : char) (s : str) :
  rstrip s <> [] -> rstrip (c :: s) = c :: rstrip s.
Proof. cbn [rstrip]. now destruct (rstrip s). Qed.

Lemma rstrip_not_space (c : char) (s : str) :
  is_space c = false -> rstrip (c :: s) <> [].
Proof. cbn [rstrip]. intros ->. now destruct (rstrip s). Qed.

Lemma marker_is_comment_line (l : str) :
  startswith marker l = true -> is_comment_line l = true.
Proof.
  intros H. apply startswith_split in H as [t ->].
  unfold is_comment_line, strip.
  change (marker ++ t) with (37%N :: 32%N :: 106%N :: 117%N :: t).
  cbn [lstrip]. change (is_space 37%N) with false. cbv iota.
  assert (H4 : rstrip (117%N :: t) <> []) by now apply rstrip_not_space.
  assert (H3 : rstrip (106%N :: 117%N :: t) <> []) by now apply rstrip_not_space.
  assert (H2 : rstrip (32%N :: 106%N :: 117%N :: t) <> [])
    by (rewrite rstrip_keeps_head by exact H3; discriminate).
  rewrite !rstrip_keeps_head by assumption.
  destruct (rstrip (117%N :: t)) as [|u r] eqn:E; [congruence|].
  assert (u = 117%N) as ->.
  { cbn [rstrip] in E. destruct (rstrip t); cbn in E; congruence. }
  reflexivity.
Qed.

Lemma kept_lines_single_line (D : str) :
  Forall (fun l => single_line l = true) (kept_lines D).
Proof.
  apply Forall_forall. intros l Hl. apply filter_In in Hl as [Hl _].
  revert l Hl. apply Forall_forall, splitlines_single_line.
Qed.

Lemma kept_lines_no_comment (D : str) (l : str) :
  In l (kept_lines D) -> is_comment_line l = false.
Proof.
  intros Hl. apply filter_In in Hl as [_ Hl]. now apply negb_true_iff in Hl.
Qed.

Lemma kept_lines_no_marker (D : str) (l : str) :
  In l (kept_lines D) -> startswith marker l = false.
Proof.
  intros Hl. apply kept_lines_no_comment in Hl.
  destruct (startswith marker l) eqn:E; [|reflexivity].
  apply marker_is_comment_line in E. congruence.
Qed.

Section Banner.

Variable config : Config.
Variable filename : str.
Hypothesis timestamp_one_line : single_line (timestamp config) = true.
Hypothesis filename_one_line : single_line filename = true.

Lemma new_comment_single_line :
  single_line (new_comment config filename) = true.
Proof.
  unfold new_comment. rewrite !single_line_app.
  now rewrite timestamp_one_line, filename_one_line.
Qed.

Lemma new_comment_marker :
  startswith marker (new_comment config filename) = true.
Proof. reflexivity. Qed.

Lemma new_comment_not_empty : new_comment config filename <> [].
Proof. discriminate. Qed.

(** The lines of the output: the new comment, then the lines kept. *)
Lemma splitlines_add_or_replace_comment (D : str) :
  splitlines (_add_or_replace_comment config D filename)
  = new_comment config filename :: drop_last_empty (kept_lines D).
Proof.
  unfold _add_or_replace_comment. fold (kept_lines D).
  rewrite splitlines_join.
  - apply drop_last_empty_cons, new_comment_not_empty.
  - constructor; [apply new_comment_single_line|apply kept_lines_single_line].
Qed.

(** A document without timestamp line never comes back unchanged. *)
Lemma timestamp_rule_changes (D : str) :
  target_absent Timestamp D ->
  _add_or_replace_comment config D filename <> D.
Proof.
  cbn [target_absent]. intros Habs Heq.
  pose proof (splitlines_add_or_replace_comment D) as Hl.
  rewrite Heq in Hl. rewrite Hl in Habs. cbn [forallb] in Habs.
  rewrite (marker_is_comment_line _ new_comment_marker) in Habs.
  discriminate.
Qed.

End Banner.

Lemma kept_lines_of_output (config : Config) (filename D : str) :
  single_line (timestamp config) = true -> single_line filename = true ->
  kept_lines (_add_or_replace_comment config D filename)
  = drop_last_empty (kept_lines D).
Proof.
  intros Ht Hf. unfold kept_lines at 1.
  rewrite splitlines_add_or_replace_comment by assumption.
  cbn [filter].
  rewrite (marker_is_comment_line _ (new_comment_marker config filename)).
  cbn [negb]. apply filter_id. intros l Hl.
  apply drop_last_empty_incl, kept_lines_no_comment in Hl. now rewrite Hl.
Qed.

Lemma banner_lines_of_output (config : Config) (filename D : str) :
  single_line (timestamp config) = true -> single_line filename = true ->
  banner_lines (_add_or_replace_comment config D filename)
  = [new_comment config filename].
Proof.
  intros Ht Hf. unfold banner_lines.
  rewrite splitlines_add_or_replace_comment by assumption.
  cbn [filter]. rewrite new_comment_marker. f_equal.
  apply filter_none. intros l Hl.
  now apply drop_last_empty_incl, kept_lines_no_marker in Hl.
Qed.

(** C3, as it holds: after the rule has been applied twice (with the same
    or with a new timestamp and file name, each on one line) the document
    has exactly one
    line that begins with the marker, the comment of the second application;
    the rule drops the lines that begin with the marker and puts one new
    comment, made of the timestamp and the file name, in front of the
    others. *)
Theorem timestamp_twice_one_banner (c1 c2 : Config) (f1 f2 D : str) :
  single_line (timestamp c1) = true -> single_line f1 = true ->
  single_line (timestamp c2) = true -> single_line f2 = true ->
  let once := _add_or_replace_comment c1 D f1 in
  let twice := _add_or_replace_comment c2 once f2 in
  banner_lines once = [new_comment c1 f1]
  /\ banner_lines twice = [new_comment c2 f2]
  /\ length (banner_lines twice) = 1
  /\ splitlines once = new_comment c1 f1 :: drop_last_empty (kept_lines D)
  /\ splitlines twice
     = new_comment c2 f2 :: drop_last_empty (drop_last_empty (kept_lines D))
  /\ Forall (fun l => startswith marker l = false) (kept_lines D)
  /\ new_comment c2 f2 = lit "% ju " ++ timestamp c2 ++ lit " " ++ f2.
Proof.
  intros Ht1 Hf1 Ht2 Hf2 once twice. subst once twice.
  repeat split.
  - now apply banner_lines_of_output.
  - now apply banner_lines_of_output.
  - now rewrite banner_lines_of_output.
  - now apply splitlines_add_or_replace_comment.
  - rewrite splitlines_add_or_replace_comment by assumption.
    now rewrite kept_lines_of_output.
  - apply Forall_forall. intros l. apply kept_lines_no_marker.
Qed.

Lemma in_join (x : char) (sep : str) (ls : list str) :
  In x (join sep ls) -> In x sep \/ exists l, In l ls /\ In x l.
Proof.
  induction ls as [|a ls IH]; [intros []|].
  destruct ls as [|b ls].
  - cbn [join]. intros H. right. exists a. split; [now left|exact H].
  - change (join sep (a :: b :: ls)) with (a ++ sep ++ join sep (b :: ls)).
    intros H. apply in_app_or in H as [H|H].
    + right. exists a. split; [now left|exact H].
    + apply in_app_or in H as [H|H]; [now left|].
      destruct (IH H) as [H'|(l & Hl & Hx)]; [now left|].
      right. exists l. split; [now right|exact Hx].
Qed.

Lemma join_snoc (sep : str) (ls : list str) (l : str) :
  ls <> [] -> join sep (ls ++ [l]) = join sep ls ++ sep ++ l.
Proof.
  induction ls as [|a ls IH]; [congruence|]. intros _.
  destruct ls as [|b ls]; [reflexivity|].
  change (join sep ((a :: b :: ls) ++ [l]))
    with (a ++ sep ++ join sep ((b :: ls) ++ [l])).
  rewrite IH by discriminate.
  change (join sep (a :: b :: ls)) with (a ++ sep ++ join sep (b :: ls)).
  now rewrite <- !app_assoc.
Qed.

Lemma endswith_nl_iff (s : str) :
  endswith nl s = true <-> exists s', s = s' ++ [LF].
Proof.
  unfold endswith, nl. cbn [rev app]. split.
  - intros H. destruct (rev s) as [|c r] eqn:E; [discriminate|].
    cbn [startswith] in H. apply andb_true_iff in H as [H _].
    apply N.eqb_eq in H. subst c. exists (rev r).
    now rewrite <- (rev_involutive s), E.
  - intros [s' ->]. rewrite rev_app_distr. cbn. reflexivity.
Qed.

Lemma single_line_not_in (x : char) (l : str) :
  is_linebreak x = true -> single_line l = true -> ~ In x l.
Proof.
  intros Hx Hl Hin. unfold single_line in Hl.
  rewrite forallb_forall in Hl. apply Hl in Hin. now rewrite Hx in Hin.
Qed.

Lemma single_line_no_trailing_nl (l : str) :
  single_line l = true -> endswith nl l = false.
Proof.
  intros Hl. destruct (endswith nl l) eqn:E; [|reflexivity].
  apply endswith_nl_iff in E as [s' ->]. exfalso.
  apply (single_line_not_in LF _ eq_refl Hl), in_or_app. right. now left.
Qed.

(** C10, as it holds: the output has no carriage return, it is the new
    comment and the lines kept, joined by line feeds, and it ends with a
    newline exactly when the last of the lines kept is empty.  The timestamp
    and the file name are on one line each. *)
Theorem timestamp_output_lines (config : Config) (filename D : str) :
  single_line (timestamp config) = true -> single_line filename = true ->
  let out := _add_or_replace_comment config D filename in
  ~ In CR out
  /\ out = join nl (new_comment config filename :: kept_lines D)
  /\ Forall (fun l => single_line l = true) (kept_lines D)
  /\ (endswith nl out = true <-> exists ls, kept_lines D = ls ++ [[]]).
Proof.
  intros Ht Hf out. subst out.
  pose proof (new_comment_single_line config filename Ht Hf) as Hb.
  pose proof (kept_lines_single_line D) as Hk.
  unfold _add_or_replace_comment. fold (kept_lines D).
  split; [|split; [reflexivity|split; [exact Hk|]]].
  - intros Hin. apply in_join in Hin as [Hin|(l & Hl & Hin)].
    + destruct Hin as [Hin|[]]. discriminate.
    + revert Hin. apply single_line_not_in; [reflexivity|].
      rewrite Forall_forall in Hk. destruct Hl as [<-|Hl]; auto.
  - destruct (kept_lines D) as [|k ks] eqn:E.
    + cbn [join]. rewrite (single_line_no_trailing_nl _ Hb). split.
      * discriminate.
      * intros [ls Hls]. now destruct ls.
    + destruct (exists_last (l := k :: ks)) as (ks' & l & Hks);
        [discriminate|].
      rewrite Hks in *.
      rewrite app_comm_cons, join_snoc by discriminate.
      assert (Hl : single_line l = true).
      { rewrite Forall_forall in Hk. apply Hk, in_or_app. right. now left. }
      destruct l as [|c l].
      * split; [intros _; now exists ks'|intros _].
        apply endswith_nl_iff. exists (join nl (new_comment config filename :: ks')).
        now rewrite app_nil_r.
      * split.
        -- intros H. exfalso.
           apply endswith_nl_iff in H as [s' Hs'].
           destruct (exists_last (l := c :: l)) as (l0 & x & Hx);
             [discriminate|].
           rewrite Hx, !app_assoc in Hs'. apply app_inj_tail in Hs' as [_ ->].
           rewrite Hx in Hl. revert Hl.
           rewrite single_line_app. cbn. now rewrite andb_false_r.
        -- intros [ls Hls]. apply app_inj_tail in Hls as [_ Hls].
           discriminate.
Qed.

Lemma timestamp_twice_one_banner_witness :
  banner_lines
    (_add_or_replace_comment cfg0
       (_add_or_replace_comment cfg0 stamped_doc (lit "a.tex")) (lit "a.tex"))
  = [lit "% ju 26-Nov-24 a.tex"].
Proof.
  destruct (timestamp_twice_one_banner cfg0 cfg0 (lit "a.tex") (lit "a.tex")
              stamped_doc eq_refl eq_refl eq_refl eq_refl) as (_ & H & _).
  exact H.
Defined.

Lemma timestamp_output_lines_witness :
  ~ In CR (_add_or_replace_comment cfg0 stamped_doc (lit "a.tex"))
  /\ _add_or_replace_comment cfg0 stamped_doc (lit "a.tex")
     = lit "% ju 26-Nov-24 a.tex" ++ nl ++ lit "Text" ++ nl ++ lit "mehr".
Proof.
  destruct (timestamp_output_lines cfg0 (lit "a.tex") stamped_doc
              eq_refl eq_refl) as (H & _).
  split; [exact H|reflexivity].
Defined.

(** C3, as stated, fails for a file name with a line feed in it: the
    comment is then two lines, and when the second begins with the marker
    the document has two lines that begin with the marker after one run and
    after two. *)
Lemma timestamp_twice_two_banners :
  let once := _add_or_replace_comment cfg0 (lit "Text") two_line_name in
  let twice := _add_or_replace_comment cfg0 once two_line_name in
  twice = lit "% ju 26-Nov-24 a" ++ nl ++ lit "% ju b.tex" ++ nl ++ lit "Text"
  /\ banner_lines twice = [lit "% ju 26-Nov-24 a"; lit "% ju b.tex"]
  /\ length (banner_lines twice) = 2.
Proof. repeat split. Qed.

(** C10, as stated, fails: when the input ends with an empty line, the
    output ends with a newline. *)
Lemma timestamp_output_trailing_newline :
  _add_or_replace_comment cfg0 blank_end_doc (lit "a.tex")
  = lit "% ju 26-Nov-24 a.tex" ++ nl ++ lit "a" ++ nl
  /\ endswith nl (_add_or_replace_comment cfg0 blank_end_doc (lit "a.tex"))
     = true.
Proof. split; reflexivity. Qed.

End Lines.

(** ** Longtable *)

Ltac eval_lits :=
  repeat match goal with
    | |- context [lit ?s] =>
        let v := eval vm_compute in (lit s) in change (lit s) with v
    end.

Ltac norm_text :=
  unfold nl, LF; eval_lits; cbn [app]; rewrite <- ?app_assoc; cbn [app].

Section Plain.

Lemma plain_cons (c : char) (s : str) :
  plain (c :: s) = true -> N.eqb 92 c = false /\ plain s = true.
Proof.
  cbn [plain forallb]. intros H. apply andb_true_iff in H as [Hc Hs].
  apply negb_true_iff in Hc. now rewrite N.eqb_sym.
Qed.

Lemma contains_miss (w : str) (c : char) (s : str) :
  startswith w (c :: s) = false -> contains w (c :: s) = contains w s.
Proof. cbn [contains]. now intros ->. Qed.

Lemma backslash_first (p : str) :
  hd_error p = Some 92%N -> exists w, p = 92%N :: w.
Proof. destruct p as [|c w]; [discriminate|]. intros [= ->]. now exists w. Qed.

Lemma contains_plain_app (p a b : str) :
  hd_error p = Some 92%N -> plain a = true ->
  contains p (a ++ b) = contains p b.
Proof.
  intros Hp. apply backslash_first in Hp as [w ->].
  induction a as [|c a IH]; intros H; [reflexivity|].
  apply plain_cons in H as [Hc Ha]. cbn [app].
  rewrite contains_miss by (cbn [startswith]; now rewrite Hc).
  now apply IH.
Qed.

Lemma contains_plain (p a : str) :
  hd_error p = Some 92%N -> plain a = true -> contains p a = false.
Proof.
  intros Hp H. rewrite <- (app_nil_r a).
  rewrite contains_plain_app by assumption.
  apply backslash_first in Hp as [w ->]. reflexivity.
Qed.

Lemma no_start_in_miss (w : str) (c : char) (pre tail : str) :
  startswith w (c :: pre ++ tail) = false ->
  no_start_in w (c :: pre) tail = no_start_in w pre tail.
Proof. cbn [no_start_in app]. now intros ->. Qed.

Lemma no_start_in_plain_app (p a b tail : str) :
  hd_error p = Some 92%N -> plain a = true ->
  no_start_in p (a ++ b) tail = no_start_in p b tail.
Proof.
  intros Hp. apply backslash_first in Hp as [w ->].
  induction a as [|c a IH]; intros H; [reflexivity|].
  apply plain_cons in H as [Hc Ha]. cbn [app].
  rewrite no_start_in_miss by (cbn [startswith]; now rewrite Hc).
  now apply IH.
Qed.

Lemma sub_lit_plain_app (p : str) (repl : str -> groups -> str) (a b : str) :
  hd_error p = Some 92%N -> plain a = true ->
  sub (RLit p) repl (a ++ b) = a ++ sub (RLit p) repl b.
Proof.
  intros Hp. apply backslash_first in Hp as [w ->].
  induction a as [|c a IH]; intros H; [reflexivity|].
  apply plain_cons in H as [Hc Ha]. cbn [app].
  rewrite sub_lit_miss by (cbn [startswith]; now rewrite Hc).
  now rewrite IH.
Qed.

Lemma sub_lit_hit_cons (w : str) (repl : str -> groups -> str) (c : char)
    (t s : str) :
  w <> [] -> strip_prefix w (c :: t) = Some s ->
  sub (RLit w) repl (c :: t) = repl w [] ++ sub (RLit w) repl s.
Proof. apply sub_lit_hit. Qed.

(** Patterns that begin with a backslash pass over plain text. *)
Lemma sub_plain_app (r : regex) (repl : str -> groups -> str) (a b : str) :
  (forall c s, N.eqb 92 c = false -> match_at false r (c :: s) = None) ->
  plain a = true -> sub r repl (a ++ b) = a ++ sub r repl b.
Proof.
  intros Hr. induction a as [|c a IH]; intros H; [reflexivity|].
  apply plain_cons in H as [Hc Ha]. cbn [app].
  rewrite sub_step_copy by now apply Hr. now rewrite IH.
Qed.

Lemma sub_plain (r : regex) (repl : str -> groups -> str) (a : str) :
  (forall c s, N.eqb 92 c = false -> match_at false r (c :: s) = None) ->
  match_at false r [] = None ->
  plain a = true -> sub r repl a = a.
Proof.
  intros Hr Hnil H. rewrite <- (app_nil_r a) at 1.
  rewrite sub_plain_app by assumption. rewrite sub_nil by assumption.
  apply app_nil_r.
Qed.

End Plain.

(** One step of the innermost [sub] for a literal pattern on a text that
    is spelt out but for plain parts. *)
Ltac no_sub_in t :=
  lazymatch t with
  | context [sub _ _ _] => fail
  | _ => idtac
  end.

Ltac step_sub :=
  match goal with
  | |- context [sub (RLit ?p) ?f (?a ++ ?b)] =>
      no_sub_in b;
      rewrite (sub_lit_plain_app p f a b) by (reflexivity || assumption)
  | |- context [sub (RLit ?p) ?f (?c :: ?t)] =>
      no_sub_in t;
      first [ erewrite (sub_lit_hit_cons p f c t) by (discriminate || reflexivity)
            | rewrite (sub_lit_miss p f c t) by reflexivity ]
  | |- context [sub (RLit ?p) ?f []] =>
      rewrite (sub_lit_nil p f) by discriminate
  end.

Ltac walk_sub := repeat step_sub; cbn beta; cbn [app].

Ltac step_contains :=
  match goal with
  | |- context [contains ?p (?a ++ ?b)] =>
      rewrite (contains_plain_app p a b) by (reflexivity || assumption)
  | |- context [contains ?p (?c :: ?t)] =>
      rewrite (contains_miss p c t) by reflexivity
  | |- contains ?p ?a = false =>
      apply contains_plain; (reflexivity || assumption)
  end.


Ltac step_no_start :=
  match goal with
  | |- context [no_start_in ?p (?a ++ ?b) ?t] =>
      rewrite (no_start_in_plain_app p a b t) by (reflexivity || assumption)
  | |- context [no_start_in ?p (?c :: ?a) ?t] =>
      rewrite (no_start_in_miss p c a t) by reflexivity
  end.

Ltac walk_no_start := repeat step_no_start; try reflexivity.

Section TokenFree.

Lemma contains_prefix (w pre t : str) :
  contains w t = true -> contains w (pre ++ t) = true.
Proof.
  intros H. induction pre as [|c pre IH]; [exact H|].
  cbn [app contains]. rewrite IH. apply orb_true_r.
Qed.

Lemma contains_startswith (w t : str) :
  startswith w t = true -> contains w t = true.
Proof. intros H. destruct t; cbn [contains]; now rewrite H. Qed.

Lemma contains_middle (w pre post : str) :
  contains w (pre ++ w ++ post) = true.
Proof. apply contains_prefix, contains_startswith, startswith_app. Qed.

Lemma startswith_app_l (u v s : str) :
  startswith (u ++ v) s = true -> startswith u s = true.
Proof.
  revert s. induction u as [|x u IH]; intros s H; [reflexivity|].
  destruct s as [|y s]; [discriminate|]. cbn [app startswith] in *.
  apply andb_true_iff in H as [Hxy H]. rewrite Hxy. now apply IH.
Qed.

(** An occurrence of [w] at the start of [a ++ b] lies in [a] or runs over
    its end. *)
Lemma startswith_app_cases (w a b : str) :
  startswith w (a ++ b) = true ->
  (exists t, a = w ++ t)
  \/ (length a < length w /\ startswith (skipn (length a) w) b = true).
Proof.
  revert a. induction w as [|x w IH]; intros a H.
  - left. now exists a.
  - destruct a as [|y a].
    + right. cbn [length skipn app] in *. split; [lia|exact H].
    + cbn [app startswith] in H. apply andb_true_iff in H as [Hxy H].
      apply N.eqb_eq in Hxy. subst y.
      destruct (IH a H) as [[t ->]|[Hlen Hs]].
      * left. now exists t.
      * right. cbn [length skipn]. split; [lia|exact Hs].
Qed.

Lemma contains_inv (w s : str) :
  contains w s = true -> exists pre post, s = pre ++ w ++ post.
Proof.
  induction s as [|c s IH]; cbn [contains]; intros H.
  - rewrite orb_false_r in H. apply startswith_split in H as [t ->].
    now exists [], t.
  - apply orb_true_iff in H as [H|H].
    + apply startswith_split in H as [t ->]. now exists [], t.
    + destruct (IH H) as (pre & post & ->). now exists (c :: pre), post.
Qed.

(** A text without [token] has no text in it of which [token] is a part. *)
Lemma contains_super (token w s : str) :
  contains token w = true -> contains token s = false ->
  contains w s = false.
Proof.
  intros HT Hs. destruct (contains w s) eqn:E; [|reflexivity].
  apply contains_inv in HT as (p1 & p2 & ->).
  apply contains_inv in E as (pre & post & ->).
  rewrite <- Hs. symmetry.
  replace (pre ++ (p1 ++ token ++ p2) ++ post)
    with ((pre ++ p1) ++ token ++ (p2 ++ post))
    by (now rewrite <- !app_assoc).
  apply contains_middle.
Qed.

Lemma no_overlap_spec (w : str) (n : nat) (b : str) (k : nat) :
  no_overlap w n b = true -> 0 < k < n ->
  startswith (skipn k w) b = false.
Proof.
  unfold no_overlap. rewrite forallb_forall. intros H Hk.
  apply negb_true_iff, H, in_seq. lia.
Qed.

(** When [token] is not in [a], and no occurrence of [p1 ++ token ++ p2]
    can run from [a] into [b] before its [token] is complete, no occurrence
    begins in [a]. *)
Lemma no_start_in_free (p1 token p2 a b : str) :
  contains token a = false ->
  no_overlap (p1 ++ token ++ p2) (length (p1 ++ token)) b = true ->
  no_start_in (p1 ++ token ++ p2) a b = true.
Proof.
  intros Ha Hb. induction a as [|c a IH]; [reflexivity|].
  cbn [no_start_in]. apply andb_true_iff. split.
  - apply negb_true_iff.
    destruct (startswith (p1 ++ token ++ p2) ((c :: a) ++ b)) eqn:E;
      [exfalso|reflexivity].
    assert (E1 : startswith (p1 ++ token) ((c :: a) ++ b) = true)
      by (apply (startswith_app_l _ p2); now rewrite <- app_assoc).
    apply startswith_app_cases in E1 as [[t Ht]|[Hlen _]].
    + rewrite Ht, <- app_assoc in Ha. now rewrite contains_middle in Ha.
    + apply startswith_app_cases in E as [[t Ht]|[_ Hs]].
      * rewrite Ht, !length_app in Hlen. lia.
      * rewrite (no_overlap_spec _ _ _ (length (c :: a)) Hb) in Hs;
          [discriminate|]. cbn [length] in *. lia.
  - apply IH. cbn [contains] in Ha. now apply orb_false_iff in Ha.
Qed.

Lemma no_start_in_token (token a b : str) :
  contains token a = false ->
  no_overlap token (length token) b = true ->
  no_start_in token a b = true.
Proof.
  intros Ha Hb. pose proof (no_start_in_free [] token [] a b Ha) as H.
  cbn [app] in H. rewrite app_nil_r in H. now apply H.
Qed.

Lemma contains_app_no_start (w a b : str) :
  contains w (a ++ b) = negb (no_start_in w a b) || contains w b.
Proof.
  induction a as [|c a IH]; [reflexivity|].
  cbn [app contains no_start_in]. rewrite IH.
  change (c :: a ++ b) with ((c :: a) ++ b).
  destruct (startswith w ((c :: a) ++ b)), (no_start_in w a b);
    reflexivity.
Qed.

(** A text without [token] can be passed over when the text behind it
    cannot complete an occurrence. *)
Lemma contains_app_free (token a b : str) :
  contains token a = false ->
  no_overlap token (length token) b = true ->
  contains token (a ++ b) = contains token b.
Proof.
  intros Ha Hb. rewrite contains_app_no_start.
  now rewrite no_start_in_token.
Qed.

Lemma no_start_in_app (w a b t : str) :
  no_start_in w (a ++ b) t = no_start_in w a (b ++ t) && no_start_in w b t.
Proof.
  induction a as [|c a IH]; [reflexivity|].
  cbn [app no_start_in]. rewrite IH, <- !app_assoc.
  now rewrite andb_assoc.
Qed.

(** A pattern that begins with the literal [L] has no match where no
    occurrence of [L] begins. *)
Lemma no_match_in_prefix (r : regex) (L pre s : str) :
  (forall t, startswith L t = false -> match_at false r t = None) ->
  no_start_in L pre s = true -> no_match_in r pre s = true.
Proof.
  intros Hr. induction pre as [|c pre IH]; [reflexivity|].
  cbn [no_start_in no_match_in]. intros H.
  apply andb_true_iff in H as [H1 H2]. apply negb_true_iff in H1.
  rewrite (Hr _ H1). now apply IH.
Qed.

Lemma sub_lit_absent (w : str) (repl : str -> groups -> str) (s : str) :
  contains w s = false -> sub (RLit w) repl s = s.
Proof. intros H. now apply sub_no_match, search_lit. Qed.

Lemma token_free_spec (s : str) :
  token_free s = true ->
  contains (lit "\noalign") s = false
  /\ contains (lit "\endhead") s = false
  /\ contains (lit "\endlastfoot") s = false
  /\ contains (lit "\begin{longtable}") s = false
  /\ contains (lit "\end{longtable}") s = false.
Proof.
  unfold token_free, control_tokens. cbn [forallb]. intros H.
  repeat (apply andb_true_iff in H as [?%negb_true_iff H]).
  now repeat split.
Qed.

End TokenFree.

Section LongtableRule.

Lemma rmatch_lit_seq (A : Type) (w : str) (r : regex) (s : str) (g : groups)
    (K : str -> groups -> option A) :
  rmatch (RSeq (RLit w) r) (w ++ s) g K = rmatch r s g K.
Proof. cbn [rmatch]. now rewrite strip_prefix_app. Qed.

(** The longtable pattern matches a block whose column definition and body
    end at the first [@{}}] and the first [\end{longtable}]; the groups are
    the column definition and the body. *)
Lemma longtable_match (cols body after : str) :
  no_start_in (lit "@{}}") cols
    (lit "@{}}" ++ body ++ lit "\end{longtable}" ++ after) = true ->
  no_start_in (lit "\end{longtable}") body (lit "\end{longtable}" ++ after)
  = true ->
  match_at false _longtable_pattern (longtable_block cols body ++ after)
  = Some (length (longtable_block cols body), [(2, body); (1, cols)]).
Proof.
  intros Hc Hb.
  unfold match_at, _longtable_pattern, seq, lazy_any, longtable_block.
  cbn [fold_right]. rewrite <- !app_assoc. rewrite rmatch_lit_seq.
  apply lazy_group_then_lit; [apply any_dotall|exact Hc|].
  apply lazy_group_then_lit; [apply any_dotall|exact Hb|].
  cbn [rmatch strip_prefix andb]. do 2 f_equal.
  rewrite !length_app. lia.
Qed.

Lemma longtable_needs_backslash (c : char) (s : str) :
  N.eqb 92 c = false -> match_at false _longtable_pattern (c :: s) = None.
Proof.
  intros H. unfold match_at, _longtable_pattern, seq. cbn [fold_right].
  change (lit "\begin{longtable}[]{@{}")
    with (92%N :: tl (lit "\begin{longtable}[]{@{}")).
  cbn [rmatch strip_prefix]. now rewrite H.
Qed.

Lemma longtable_block_not_empty (cols body : str) :
  longtable_block cols body <> [].
Proof.
  unfold longtable_block.
  change (lit "\begin{longtable}[]{@{}")
    with (92%N :: tl (lit "\begin{longtable}[]{@{}")).
  discriminate.
Qed.

Lemma longtable_no_empty_match : match_at false _longtable_pattern [] = None.
Proof. reflexivity. Qed.




(** The same for a longtable with a header row: the control rows go, the
    middle rule stays in front of the second row. *)
Lemma convert_header_longtable (before head row after : str) :
  plain before = true -> plain head = true -> plain row = true ->
  plain after = true ->
  _convert_longtable_to_table
    (before ++ longtable_block (lit "ll") (header_body head row) ++ after)
  = before ++
    _create_table_environment (lit "ll")
      (nl ++ head ++ lit " \\" ++ nl ++ lit "\midrule" ++ row ++ lit " \\" ++ nl)
    ++ after.
Proof.
  intros Hb H1 H2 Ha. unfold _convert_longtable_to_table.
  rewrite sub_plain_app by (apply longtable_needs_backslash || assumption).
  rewrite (sub_match_app _ _ _ _ [(2, header_body head row); (1, lit "ll")]).
  - rewrite (sub_plain _ _ _ longtable_needs_backslash
               longtable_no_empty_match Ha).
    unfold longtable_replacer. cbn [group_text group Nat.eqb]. do 2 f_equal.
    unfold _clean_table_content, table_patterns, header_body, toprule_row,
      endhead_row, bottomrule_row.
    cbn [fold_left]. norm_text. walk_sub. walk_sub. walk_sub. reflexivity.
  - apply longtable_block_not_empty.
  - apply longtable_match; [reflexivity|].
    unfold header_body, toprule_row, endhead_row, bottomrule_row.
    norm_text. walk_no_start.
Qed.


End LongtableRule.



(** ** The other rules on sample documents *)

Example code_and_pandoc_examples :
  _convert_code_blocks (lit "a \passthrough{\lstinline!x!y!} b")
  = lit "a \verb|x!y| b"
  /\ _remove_pandoc_bounded
       (lit "\pandocbounded{\includegraphics{a}} \pandocbounded{\pandocbounded{x}}")
     = lit "\includegraphics{a} \pandocbounded{x}"
  /\ _apply_simple_replacements (lit "``a'' \tightlist b,height=\textheight]")
     = lit ">>a<<  b]".
Proof. repeat split. Qed.

Example adjust_table_examples :
  _adjust_table_format raggedright_table
  = lit "\begin{tabular}{@{}lll@{}}" ++ nl ++ lit "\toprule" ++ nl ++
    lit "A & B & C\\" ++ nl ++ lit "1 & 2 & 3 \\" ++ nl ++
    lit "\bottomrule" ++ nl ++ lit "\end{tabular}"
  /\ _adjust_table_format raggedright_no_rules
     = lit "\begin{tabular}{@{}l@{}}" ++ nl ++ lit "\toprule" ++ nl ++
       lit "Inhalt konnte nicht extrahiert werden." ++ nl ++
       lit "\bottomrule" ++ nl ++ lit "\end{tabular}".
Proof. split; vm_compute; reflexivity. Qed.

(** * Further properties of the rules *)

(** ** Table format: the helpers of rule 7 *)

Section TableFormat.

Lemma search_some_inv (r : regex) (s : str) (i n : nat) (g : groups) :
  search r s = Some (i, n, g) ->
  exists pre t,
    s = pre ++ t /\ length pre = i /\ match_at false r t = Some (n, g).
Proof.
  revert i. induction s as [|c s IH]; intros i H; cbn [search] in H.
  - destruct (match_at false r []) as [[n' g']|] eqn:Hm; [|discriminate].
    injection H as <- <- <-. now exists [], [].
  - destruct (match_at false r (c :: s)) as [[n' g']|] eqn:Hm.
    + injection H as <- <- <-. now exists [], (c :: s).
    + destruct (search r s) as [[[i' n'] g']|] eqn:Hs; [|discriminate].
      injection H as <- <- <-.
      destruct (IH i' eq_refl) as (pre & t & -> & <- & Ht).
      now exists (c :: pre), t.
Qed.

(** A match of the pattern for the rows: [\toprule], the rows, and
    [\bottomrule]. *)
Lemma table_content_match_inv (w : str) (g : groups) :
  Matches _table_content_pattern w g ->
  exists rows, w = lit "\toprule" ++ rows ++ lit "\bottomrule"
               /\ g = [(1, rows)].
Proof.
  unfold _table_content_pattern, seq, lazy_any. cbn [fold_right].
  intros H. inv_matches.
  match goal with H : forallb _ ?a = true |- _ => exists a end.
  now rewrite app_nil_r.
Qed.

(** Without a top rule or without a bottom rule there are no rows to
    extract: the helper returns its placeholder text, and the table that
    rule 7 builds from it has one column. *)
Theorem extract_table_content_placeholder (content : str) :
  contains (lit "\toprule") content = false
  \/ contains (lit "\bottomrule") content = false ->
  _extract_table_content content = placeholder
  /\ forall g,
       _adjust_table_structure content g
       = lit "\begin{tabular}{@{}l@{}}" ++ nl ++ lit "\toprule" ++ nl ++
         placeholder ++ nl ++ lit "\bottomrule" ++ nl ++ lit "\end{tabular}".
Proof.
  intros Habs.
  assert (He : _extract_table_content content = placeholder).
  { unfold _extract_table_content.
    destruct (search _table_content_pattern content) as [[[i n] g]|] eqn:Hs;
      [exfalso|reflexivity].
    destruct (search_some_inv _ _ _ _ _ Hs) as (pre & t & -> & _ & Hm).
    destruct (match_at_sound _ _ _ _ _ Hm) as (w & post & -> & _ & HM).
    destruct (table_content_match_inv _ _ HM) as (rows & -> & _).
    destruct Habs as [Habs|Habs]; revert Habs.
    - rewrite <- !app_assoc, contains_middle. discriminate.
    - rewrite <- !app_assoc, !app_assoc, <- (app_assoc _ (lit "\bottomrule")).
      rewrite contains_middle. discriminate. }
  split; [exact He|]. intros g. unfold _adjust_table_structure.
  rewrite He. reflexivity.
Qed.

Lemma extract_table_content_placeholder_witness :
  _extract_table_content raggedright_no_rules = placeholder.
Proof.
  apply (extract_table_content_placeholder raggedright_no_rules).
  left. reflexivity.
Defined.

Lemma times_repeat (c : char) (n : Z) :
  times [c] n = repeat c (Z.to_nat n).
Proof.
  unfold times. induction (Z.to_nat n) as [|k IH]; [reflexivity|].
  cbn. now rewrite IH.
Qed.

(** The table of rule 7 never has an empty column definition: the column
    count is at least 1 and the definition is that many letters [l]. *)
Theorem adjusted_table_has_columns (content : str) :
  (1 <= _calculate_columns content)%Z
  /\ exists k,
       1 <= k /\ Z.of_nat k = _calculate_columns content
       /\ forall rows,
            _create_adjusted_table rows (_calculate_columns content)
            = lit "\begin{tabular}{@{}" ++ repeat 108%N k ++ lit "@{}}" ++ nl ++
              lit "\toprule" ++ nl ++ rows ++ nl ++ lit "\bottomrule" ++ nl ++
              lit "\end{tabular}".
Proof.
  assert (H1 : (1 <= _calculate_columns content)%Z).
  { unfold _calculate_columns.
    destruct (contains row_end content) eqn:E; cbn [negb]; [|lia].
    assert (count row_end content <> 0)
      by (apply contains_count_pos; [discriminate|exact E]).
    assert (0 <= Z.of_nat (count cell_sep content)
                 / Z.of_nat (count row_end content))%Z
      by (apply Z.div_pos; lia).
    lia. }
  split; [exact H1|].
  exists (Z.to_nat (_calculate_columns content)).
  split; [lia|]. split; [lia|]. intros rows.
  unfold _create_adjusted_table. now rewrite (times_repeat 108%N).
Qed.

Lemma rstrip_idempotent (s : str) : rstrip (rstrip s) = rstrip s.
Proof.
  induction s as [|c s IH]; [reflexivity|]. cbn [rstrip].
  destruct (rstrip s) as [|d r] eqn:E.
  - destruct (is_space c) eqn:Hc; [reflexivity|]. cbn [rstrip]. now rewrite Hc.
  - rewrite rstrip_keeps_head; [now rewrite IH|]. rewrite IH. discriminate.
Qed.

Lemma lstrip_head (s : str) :
  match lstrip s with
  | [] => True
  | c :: _ => is_space c = false
  end.
Proof.
  induction s as [|c s IH]; [exact I|]. cbn [lstrip].
  destruct (is_space c) eqn:Hc; [exact IH|exact Hc].
Qed.

Lemma lstrip_not_space (c : char) (s : str) :
  is_space c = false -> lstrip (c :: s) = c :: s.
Proof. cbn [lstrip]. now intros ->. Qed.

Lemma strip_idempotent (s : str) : strip (strip s) = strip s.
Proof.
  unfold strip. pose proof (lstrip_head s) as H.
  destruct (lstrip s) as [|c t]; [reflexivity|].
  assert (exists r, rstrip (c :: t) = c :: r) as [r Hr].
  { cbn [rstrip]. destruct (rstrip t); [rewrite H|]; eauto. }
  rewrite Hr, (lstrip_not_space _ _ H), <- Hr. apply rstrip_idempotent.
Qed.

(** What the helper extracts has no white space at either end, whether it
    is rows or the placeholder. *)
Theorem extract_table_content_stripped (content : str) :
  strip (_extract_table_content content) = _extract_table_content content.
Proof.
  unfold _extract_table_content.
  destruct (search _table_content_pattern content) as [[[i n] g]|].
  - apply strip_idempotent.
  - reflexivity.
Qed.

End TableFormat.

(** ** Patterns that stay on one line *)

Section LineBound.

Variable T : str.

Lemma strip_prefix_ext (w b : str) :
  negb (char_in LF w) = true ->
  strip_prefix w (b ++ LF :: T)
  = option_map (fun s => s ++ LF :: T) (strip_prefix w b).
Proof.
  revert b. induction w as [|a w IH]; intros b H; [reflexivity|].
  unfold char_in in H. cbn [existsb] in H.
  apply negb_true_iff, orb_false_iff in H as [Ha Hw].
  destruct b as [|c b]; cbn [app strip_prefix].
  - now rewrite N.eqb_sym, Ha.
  - destruct (N.eqb a c); [|reflexivity].
    apply IH. unfold char_in. now rewrite Hw.
Qed.

Lemma consumed_ext (b b2 X : str) :
  consumed (b ++ X) (b2 ++ X) = consumed b b2.
Proof.
  unfold consumed. rewrite !length_app, firstn_app.
  replace (length b + length X - (length b2 + length X))
    with (length b - length b2) by lia.
  replace (length b - length b2 - length b) with 0 by lia.
  cbn [firstn]. apply app_nil_r.
Qed.

Lemma star_ext (A : Type) (greedy : bool) (cs : cset) (b : str) (g : groups)
    (k k' : str -> groups -> option A) :
  negb (cset_mem cs LF) = true ->
  (forall b2, k' (b2 ++ LF :: T) g = k b2 g) ->
  star greedy cs (b ++ LF :: T) g k' = star greedy cs b g k.
Proof.
  intros Hcs Hk. apply negb_true_iff in Hcs.
  induction b as [|c b IH].
  - pose proof (Hk []) as H0. cbn [app] in *.
    destruct greedy; cbn [star]; rewrite Hcs, H0; [reflexivity|].
    now destruct (k [] g).
  - pose proof (Hk (c :: b)) as H0. cbn [app] in *.
    destruct greedy; cbn [star]; now rewrite IH, H0.
Qed.

(** Behind the text there is a newline: the matcher works as if the text
    ended there. *)
Lemma rmatch_ext (A : Type) (r : regex) :
  line_bound r = true ->
  forall (b : str) (g : groups) (k k' : str -> groups -> option A),
    (forall b2 g2, k' (b2 ++ LF :: T) g2 = k b2 g2) ->
    rmatch r (b ++ LF :: T) g k' = rmatch r b g k.
Proof.
  induction r as [w|cs|greedy cs|r1 IH1 r2 IH2|r1 IH1 r2 IH2|r IH|n r IH];
    cbn [line_bound]; intros Hr b g k k' Hk; cbn [rmatch].
  - rewrite (strip_prefix_ext _ _ Hr).
    destruct (strip_prefix w b); cbn [option_map]; [apply Hk|reflexivity].
  - destruct b as [|c b]; cbn [app].
    + apply negb_true_iff in Hr. now rewrite Hr.
    + destruct (cset_mem cs c); [apply Hk|reflexivity].
  - apply star_ext; [exact Hr|]. intros b2. apply Hk.
  - apply andb_true_iff in Hr as [H1 H2]. apply IH1; [exact H1|].
    intros b2 g2. now apply IH2.
  - apply andb_true_iff in Hr as [H1 H2].
    now rewrite (IH1 H1 b g k k' Hk), (IH2 H2 b g k k' Hk).
  - now rewrite (IH Hr b g k k' Hk), (Hk b g).
  - apply IH; [exact Hr|]. intros b2 g2. now rewrite consumed_ext, Hk.
Qed.

Lemma match_at_ext (adv : bool) (r : regex) (b : str) :
  line_bound r = true ->
  match_at adv r (b ++ LF :: T) = match_at adv r b.
Proof.
  intros Hr. unfold match_at. apply rmatch_ext; [exact Hr|].
  intros b2 g2. rewrite !length_app.
  now replace (length b + length (LF :: T) - (length b2 + length (LF :: T)))
    with (length b - length b2) by lia.
Qed.

(** [sub] with a pattern that stays on one line and has no empty match
    works on the text in front of a newline and on the text behind it
    separately. *)
Lemma sub_linewise (r : regex) (repl : str -> groups -> str) (l : str) :
  line_bound r = true ->
  (forall w g, Matches r w g -> w <> []) ->
  sub r repl (l ++ LF :: T) = sub r repl l ++ LF :: sub r repl T.
Proof.
  intros Hr Hne.
  assert (Hnil : match_at false r [] = None).
  { destruct (match_at false r []) as [[n g]|] eqn:E; [|reflexivity].
    destruct (match_at_sound _ _ _ _ _ E) as (w & post & Hs & _ & HM).
    apply Hne in HM. now destruct w. }
  induction l as [l IH] using str_strong_ind.
  destruct l as [|c l].
  - pose proof (match_at_ext false r [] Hr) as H0. cbn [app] in *.
    rewrite sub_step_copy, sub_nil; trivial. now rewrite H0.
  - pose proof (match_at_ext false r (c :: l) Hr) as He.
    destruct (match_at false r (c :: l)) as [[n g]|] eqn:Hm.
    + destruct (match_at_sound _ _ _ _ _ Hm) as (w & post & Hs & Hn & HM).
      apply Hne in HM.
      destruct n as [|n]; [now destruct w|].
      rewrite (sub_step_match _ _ _ _ _ He), (sub_step_match _ _ _ _ _ Hm).
      rewrite Hs, Hn, <- (app_assoc w post (LF :: T)).
      destruct (firstn_skipn_app w (post ++ LF :: T)) as [-> ->].
      destruct (firstn_skipn_app w post) as [-> ->].
      rewrite IH, <- app_assoc; [reflexivity|].
      rewrite Hs, length_app. destruct w; [congruence|cbn; lia].
    + cbn [app] in *. rewrite (sub_step_copy _ _ _ _ He),
        (sub_step_copy _ _ _ _ Hm), IH; [reflexivity|cbn; lia].
Qed.

End LineBound.

(** ** Inline code and the bounding wrapper: rules 5 and 9 *)

Ltac not_empty_text :=
  let E := fresh in
  intros E; apply (f_equal (@length char)) in E;
  rewrite ?length_app in E; cbn in E; lia.

Section InlineRules.

Lemma any_line (p : str) :
  no_newline p = true -> forallb (cset_mem (CAny false)) p = true.
Proof. intros H. exact H. Qed.

Lemma code_match_inv (w : str) (g : groups) :
  Matches _code_pattern w g ->
  exists p, w = code_block p /\ g = [(1, p)] /\ no_newline p = true.
Proof.
  unfold _code_pattern, seq, lazy_any, code_block. cbn [fold_right].
  intros H. inv_matches.
  match goal with H : forallb _ ?a = true |- _ => exists a end.
  rewrite app_nil_r. now repeat split.
Qed.

Lemma pandoc_match_inv (w : str) (g : groups) :
  Matches _pandoc_pattern w g ->
  exists p, w = pandoc_block p /\ g = [(1, p)] /\ no_newline p = true.
Proof.
  unfold _pandoc_pattern, seq, lazy_any, pandoc_block. cbn [fold_right].
  intros H. inv_matches.
  match goal with H : forallb _ ?a = true |- _ => exists a end.
  rewrite app_nil_r. now repeat split.
Qed.

Lemma math_match_inv (w : str) (g : groups) :
  Matches _math_pattern w g -> w = lit "\(" \/ w = lit "\)".
Proof. unfold _math_pattern. intros H. inv_matches; auto. Qed.

(** Rules 5, 8 and 9 work line by line: what they do to the text in front
    of a newline does not depend on the text behind it, and the newline
    stays. *)
Theorem inline_rules_linewise (l rest : str) :
  _convert_code_blocks (l ++ nl ++ rest)
  = _convert_code_blocks l ++ nl ++ _convert_code_blocks rest
  /\ _convert_math_delimiters (l ++ nl ++ rest)
     = _convert_math_delimiters l ++ nl ++ _convert_math_delimiters rest
  /\ _remove_pandoc_bounded (l ++ nl ++ rest)
     = _remove_pandoc_bounded l ++ nl ++ _remove_pandoc_bounded rest.
Proof.
  unfold _convert_code_blocks, _convert_math_delimiters,
    _remove_pandoc_bounded, nl. cbn [app].
  repeat split; apply sub_linewise; try reflexivity; intros w g HM.
  - destruct (code_match_inv _ _ HM) as (p & -> & _). unfold code_block.
    not_empty_text.
  - destruct (math_match_inv _ _ HM) as [-> | ->]; discriminate.
  - destruct (pandoc_match_inv _ _ HM) as (p & -> & _). unfold pandoc_block.
    not_empty_text.
Qed.

Lemma single_char_first (x : char) (p tail : str) :
  contains [x] p = false -> no_start_in [x] p ([x] ++ tail) = true.
Proof.
  induction p as [|c p IH]; [reflexivity|]. intros H.
  apply contains_cons_false in H as [Hs Hc].
  cbn [no_start_in app startswith] in *. rewrite Hs. now apply IH.
Qed.

Lemma code_match (p rest : str) :
  no_newline p = true ->
  no_start_in (lit "!}") p (lit "!}" ++ rest) = true ->
  match_at false _code_pattern (code_block p ++ rest)
  = Some (length (code_block p), [(1, p)]).
Proof.
  intros Hp Hfirst. unfold match_at, _code_pattern, seq, lazy_any, code_block.
  cbn [fold_right]. rewrite <- !app_assoc. rewrite rmatch_lit_seq.
  apply lazy_group_then_lit; [exact Hp|exact Hfirst|].
  cbn [rmatch strip_prefix andb]. do 2 f_equal. rewrite !length_app. lia.
Qed.

Lemma pandoc_match (p rest : str) :
  no_newline p = true -> contains (lit "}") p = false ->
  match_at false _pandoc_pattern (pandoc_block p ++ rest)
  = Some (length (pandoc_block p), [(1, p)]).
Proof.
  intros Hp Hfirst.
  unfold match_at, _pandoc_pattern, seq, lazy_any, pandoc_block.
  cbn [fold_right]. rewrite <- !app_assoc. rewrite rmatch_lit_seq.
  apply lazy_group_then_lit;
    [exact Hp|now apply (single_char_first 125%N)|].
  cbn [rmatch strip_prefix andb]. do 2 f_equal. rewrite !length_app. lia.
Qed.

(** Rule 5 on one inline code: the payload, which ends at the first [!}]
    of its line, is put between the bars of [\verb] as it is, whatever
    characters it holds; the rule goes on behind it. *)
Theorem convert_code_block (text p rest : str) :
  no_match_in _code_pattern text (code_block p ++ rest) = true ->
  no_newline p = true ->
  no_start_in (lit "!}") p (lit "!}" ++ rest) = true ->
  _convert_code_blocks (text ++ code_block p ++ rest)
  = text ++ lit "\verb|" ++ p ++ lit "|" ++ _convert_code_blocks rest.
Proof.
  intros Ht Hp Hfirst. unfold _convert_code_blocks.
  rewrite sub_skip_prefix by exact Ht. f_equal.
  rewrite (sub_match_app _ _ _ _ [(1, p)]).
  - cbn [group_text group Nat.eqb]. now rewrite <- !app_assoc.
  - unfold code_block. not_empty_text.
  - now apply code_match.
Qed.

Lemma convert_code_block_witness :
  _convert_code_blocks (lit "a " ++ code_block (lit "x|y!z") ++ lit " b")
  = lit "a \verb|x|y!z| b".
Proof.
  rewrite (convert_code_block (lit "a ") (lit "x|y!z") (lit " b")
             eq_refl eq_refl eq_refl).
  reflexivity.
Defined.

Lemma pandoc_needs_backslash (c : char) (s : str) :
  N.eqb 92 c = false -> match_at false _pandoc_pattern (c :: s) = None.
Proof.
  intros H. unfold match_at, _pandoc_pattern, seq. cbn [fold_right].
  change (lit "\pandocbounded{") with (92%N :: tl (lit "\pandocbounded{")).
  cbn [rmatch strip_prefix]. now rewrite H.
Qed.

(** Rule 9 takes away one wrapper: the opening and the first closing brace
    behind it on the same line.  Of a wrapper in a wrapper the inner one
    stays. *)
Theorem remove_pandoc_block (text p rest : str) :
  no_match_in _pandoc_pattern text (pandoc_block p ++ rest) = true ->
  no_newline p = true -> contains (lit "}") p = false ->
  _remove_pandoc_bounded (text ++ pandoc_block p ++ rest)
  = text ++ p ++ _remove_pandoc_bounded rest
  /\ _remove_pandoc_bounded (pandoc_block (pandoc_block p) ++ rest)
     = pandoc_block p ++ _remove_pandoc_bounded rest.
Proof.
  intros Ht Hp Hfirst. unfold _remove_pandoc_bounded. split.
  - rewrite sub_skip_prefix by exact Ht. f_equal.
    rewrite (sub_match_app _ _ _ _ [(1, p)]).
    + reflexivity.
    + unfold pandoc_block. not_empty_text.
    + now apply pandoc_match.
  - replace (pandoc_block (pandoc_block p) ++ rest)
      with (pandoc_block (lit "\pandocbounded{" ++ p) ++ lit "}" ++ rest)
      by (unfold pandoc_block; now rewrite <- !app_assoc).
    rewrite (sub_match_app _ _ _ _ [(1, lit "\pandocbounded{" ++ p)]).
    + cbn [group_text group Nat.eqb].
      change (lit "}" ++ rest) with (125%N :: rest).
      rewrite sub_step_copy by now apply pandoc_needs_backslash.
      unfold pandoc_block. now rewrite <- !app_assoc.
    + unfold pandoc_block. not_empty_text.
    + apply pandoc_match.
      * unfold no_newline in *. rewrite forallb_app.
        apply andb_true_iff. split; [reflexivity|exact Hp].
      * eval_lits. cbn [app]. repeat step_contains. exact Hfirst.
Qed.

End InlineRules.

Lemma remove_pandoc_block_witness :
  _remove_pandoc_bounded
    (lit "Bild: " ++ pandoc_block (lit "\includegraphics{a") ++ lit "}")
  = lit "Bild: \includegraphics{a}".
Proof.
  destruct (remove_pandoc_block (lit "Bild: ") (lit "\includegraphics{a")
              (lit "}") eq_refl eq_refl eq_refl) as [H _].
  rewrite H. reflexivity.
Defined.

(** ** Running the timestamp rule again *)

Section Rerun.

Lemma drop_last_empty_id (ls : list str) :
  (forall front, ls <> front ++ [[]]) -> drop_last_empty ls = ls.
Proof.
  induction ls as [|a ls IH]; intros H; [reflexivity|].
  destruct ls as [|b ls].
  - destruct a; [|reflexivity]. now destruct (H []).
  - change (drop_last_empty (a :: b :: ls))
      with (a :: drop_last_empty (b :: ls)).
    rewrite IH; [reflexivity|]. intros front E. apply (H (a :: front)).
    now rewrite E.
Qed.

(** With a timestamp and a file name that are one line each, a second run
    of rule 1 puts its comment in place of the first one and drops an empty
    last line; when the lines kept do not end with an empty line, the second
    run with the same timestamp and name changes nothing. *)
Theorem timestamp_rerun (config : Config) (filename D : str) :
  single_line (timestamp config) = true -> single_line filename = true ->
  let once := _add_or_replace_comment config D filename in
  _add_or_replace_comment config once filename
  = join nl (new_comment config filename :: drop_last_empty (kept_lines D))
  /\ ((forall front, kept_lines D <> front ++ [[]]) ->
      _add_or_replace_comment config once filename = once).
Proof.
  intros Ht Hf once. subst once.
  assert (E : _add_or_replace_comment config
                (_add_or_replace_comment config D filename) filename
              = join nl (new_comment config filename
                         :: drop_last_empty (kept_lines D))).
  { unfold _add_or_replace_comment at 1.
    fold (kept_lines (_add_or_replace_comment config D filename)).
    now rewrite kept_lines_of_output. }
  split; [exact E|]. intros Hlast.
  rewrite E, (drop_last_empty_id _ Hlast). reflexivity.
Qed.

Lemma timestamp_rerun_witness :
  _add_or_replace_comment cfg0
    (_add_or_replace_comment cfg0 stamped_doc (lit "a.tex")) (lit "a.tex")
  = _add_or_replace_comment cfg0 stamped_doc (lit "a.tex").
Proof.
  destruct (timestamp_rerun cfg0 (lit "a.tex") stamped_doc eq_refl eq_refl)
    as [_ H].
  apply H. intros front E. vm_compute in E.
  destruct front as [|a [|b [|c front]]]; discriminate.
Defined.

End Rerun.

(** ** The pipeline on plain prose *)

Section Prose.

Lemma prose_spec (s : str) :
  prose s = true <->
  forall c, In c s -> c <> 92%N /\ c <> 96%N /\ c <> 39%N.
Proof.
  unfold prose. rewrite forallb_forall. split; intros H c Hc.
  - specialize (H c Hc). apply negb_true_iff in H.
    unfold char_in in H. cbn [existsb] in H.
    repeat (apply orb_false_iff in H as [?%N.eqb_neq H]). auto.
  - destruct (H c Hc) as (H1 & H2 & H3). apply negb_true_iff.
    unfold char_in. cbn [existsb].
    apply N.eqb_neq in H1, H2, H3. now rewrite H1, H2, H3.
Qed.

(** The characters of the lines are characters of the text. *)
Lemma in_splitlines (s : str) (l : str) (c : char) :
  In l (splitlines s) -> In c l -> In c s.
Proof.
  revert l. induction s as [s IH] using str_strong_ind. intros l Hl Hc.
  destruct s as [|a s]; [destruct Hl|]. cbn [splitlines] in Hl.
  destruct (is_linebreak a).
  - destruct s as [|d s].
    + destruct Hl as [<-|[]]. destruct Hc.
    + destruct (N.eqb a CR && N.eqb d LF);
        (destruct Hl as [<-|Hl]; [destruct Hc|]).
      * right. right. apply (IH s) with (l := l); [cbn; lia|trivial..].
      * right. apply (IH (d :: s)) with (l := l); [cbn; lia|trivial..].
  - assert (Hs : forall l', In l' (splitlines s) -> In c l' -> In c s)
      by (intros l'; apply IH; cbn; lia).
    destruct (splitlines s) as [|l0 ls].
    + destruct Hl as [<-|[]]. destruct Hc as [->|[]]. now left.
    + destruct Hl as [<-|Hl].
      * destruct Hc as [->|Hc]; [now left|right].
        apply (Hs l0); [now left|exact Hc].
      * right. apply (Hs l); [now right|exact Hc].
Qed.

Lemma contains_needs_char (x : char) (key t : str) :
  In x key -> ~ In x t -> contains key t = false.
Proof.
  intros Hk Ht. induction t as [|c t IH].
  - destruct key; [destruct Hk|reflexivity].
  - cbn [contains]. rewrite IH by (intros H; apply Ht; now right).
    rewrite orb_false_r.
    destruct (startswith key (c :: t)) eqn:E; [|reflexivity].
    apply startswith_split in E as [u E]. exfalso. apply Ht.
    rewrite E. apply in_or_app. now left.
Qed.

Lemma search_needs_char (x : char) (r : regex) (t : str) :
  (forall w g, Matches r w g -> In x w) -> ~ In x t -> search r t = None.
Proof.
  intros Hr Ht.
  assert (Hm : forall u, (forall c, In c u -> In c t) ->
                         match_at false r u = None).
  { intros u Hu. destruct (match_at false r u) as [[n g]|] eqn:E;
      [|reflexivity].
    destruct (match_at_sound _ _ _ _ _ E) as (w & post & -> & _ & HM).
    exfalso. apply Ht, Hu, in_or_app. left. now apply (Hr w g). }
  induction t as [|c t IH].
  - cbn [search]. now rewrite Hm.
  - apply search_cons_none; [now apply Hm|].
    apply IH.
    + intros H. apply Ht. now right.
    + intros u Hu. destruct (match_at false r u) as [[n g]|] eqn:E;
        [|reflexivity].
      destruct (match_at_sound _ _ _ _ _ E) as (w & post & -> & _ & HM).
      exfalso. apply Ht. right. apply Hu, in_or_app. left.
      now apply (Hr w g).
Qed.

Ltac backslash_first :=
  intros w g H;
  unfold _figure_pattern, _label_pattern, _code_pattern, _longtable_pattern,
    _adjust_pattern, _math_pattern, _pandoc_pattern, seq, spaces, lazy_any
    in H;
  cbn [fold_right] in H; inv_matches;
  repeat (apply in_or_app; left); left; reflexivity.

(** Every pattern of the rules begins with a backslash. *)
Lemma patterns_need_backslash :
  Forall (fun r => forall w g, Matches r w g -> In 92%N w)
    [_figure_pattern; _label_pattern; _code_pattern; _longtable_pattern;
     _adjust_pattern; _math_pattern; _pandoc_pattern].
Proof. repeat (apply Forall_cons; [backslash_first|]). constructor. Qed.

Lemma sub_without_backslash (r : regex) (repl : str -> groups -> str)
    (t : str) :
  In r [_figure_pattern; _label_pattern; _code_pattern; _longtable_pattern;
        _adjust_pattern; _math_pattern; _pandoc_pattern] ->
  ~ In 92%N t -> sub r repl t = t.
Proof.
  intros Hr Ht. apply sub_no_match, (search_needs_char 92%N); [|exact Ht].
  pose proof patterns_need_backslash as H. rewrite Forall_forall in H.
  now apply H.
Qed.

(** On a document of plain prose (timestamp and file name plain too) the
    nine rules change nothing but what rule 1 does: the result of the whole
    pipeline is the document with the new comment in front, and nothing is
    logged. *)
Theorem pipeline_on_prose (config : Config) (filename D : str) (l : log) :
  prose (timestamp config) = true -> prose filename = true ->
  prose D = true ->
  _apply_all_transformations config D filename l
  = (_add_or_replace_comment config D filename, l).
Proof.
  intros Ht Hf HD. rewrite prose_spec in Ht, Hf, HD.
  set (out := _add_or_replace_comment config D filename).
  assert (Hout : forall c, In c out -> c <> 92%N /\ c <> 96%N /\ c <> 39%N).
  { intros c Hc. subst out. unfold _add_or_replace_comment in Hc.
    apply in_join in Hc as [Hc|(line & Hl & Hc)].
    - destruct Hc as [<-|[]]. repeat split; discriminate.
    - destruct Hl as [<-|Hl].
      + unfold new_comment in Hc.
        repeat (apply in_app_or in Hc as [Hc|Hc]); auto;
          cbn in Hc; repeat (destruct Hc as [<-|Hc];
                             [repeat split; discriminate|]); destruct Hc.
      + apply filter_In in Hl as [Hl _]. apply HD.
        now apply (in_splitlines D line). }
  assert (H92 : ~ In 92%N out) by (intros H; now destruct (Hout _ H)).
  assert (H96 : ~ In 96%N out)
    by (intros H; now destruct (Hout _ H) as (_ & ? & _)).
  assert (H39 : ~ In 39%N out)
    by (intros H; now destruct (Hout _ H) as (_ & _ & ?)).
  assert (Hsimple : _apply_simple_replacements out = out).
  { apply replace_all_absent. unfold simple_replacements.
    cbn [forallb fst].
    rewrite (contains_needs_char 92%N (lit ",height=\textheight") out),
      (contains_needs_char 96%N (lit "``") out),
      (contains_needs_char 39%N (lit "''") out),
      (contains_needs_char 92%N (lit "\tightlist") out),
      (contains_needs_char 92%N (lit "\midrule") out);
      trivial; vm_compute; tauto. }
  unfold _apply_all_transformations, transformations, pure_transformation.
  cbn [apply_transformations transform_func]. fold out.
  unfold _update_figure_environment, _replace_german_chars_in_labels,
    _convert_code_blocks, _convert_longtable_to_table, _adjust_table_format,
    _convert_math_delimiters, _remove_pandoc_bounded.
  rewrite (sub_without_backslash _figure_pattern) by (cbn; tauto || exact H92).
  rewrite Hsimple.
  rewrite (sub_without_backslash _label_pattern) by (cbn; tauto || exact H92).
  rewrite (sub_without_backslash _code_pattern) by (cbn; tauto || exact H92).
  rewrite (sub_without_backslash _longtable_pattern)
    by (cbn; tauto || exact H92).
  rewrite (sub_without_backslash _adjust_pattern) by (cbn; tauto || exact H92).
  rewrite (sub_without_backslash _math_pattern) by (cbn; tauto || exact H92).
  rewrite (sub_without_backslash _pandoc_pattern) by (cbn; tauto || exact H92).
  reflexivity.
Qed.

Lemma pipeline_on_prose_witness :
  _apply_all_transformations cfg0 plain_doc (lit "a.tex") []
  = (lit "% ju 26-Nov-24 a.tex" ++ nl ++ lit "Ein Absatz ohne Makros." ++ nl
     ++ lit "Noch einer.", []).
Proof.
  rewrite (pipeline_on_prose cfg0 (lit "a.tex") plain_doc []
             eq_refl eq_refl eq_refl).
  reflexivity.
Defined.

End Prose.

(** ** What a run writes and how it ends *)

Section Written.

Variable chain : str -> list transformation.






End Written.


(** A run ends with exit code 1 exactly when the directory cannot be
    entered; then the error is all that is logged and nothing is written.
    Otherwise it returns, whatever happens to the files, and the message
    that the processing is finished closes the log; in a directory without
    matching files the warning is all that comes before it. *)
Theorem run_outcome (chain : str -> list transformation) (dir_name : string)
    (d : directory) :
  let run := main_with chain dir_name d in
  (snd run = Exited 1 <-> chdir d <> None)
  /\ (snd run = Returned <-> chdir d = None)
  /\ (forall e, chdir d = Some e ->
        fst run = {| run_log := [Error_directory e]; run_written := [] |})
  /\ (chdir d = None ->
      exists entries,
        run_log (fst run) = Info_directory dir_name :: entries ++ [Info_finished])
  /\ (chdir d = None -> glob_tex d = [] ->
      fst run = {| run_log := [Info_directory dir_name; Warning_no_files;
                               Info_finished];
                   run_written := [] |}).
Proof.
  intros run. subst run. unfold main_with, process_files_with, empty_state.
  destruct (chdir d) as [e|]; cbn [fst snd run_log run_written app].
  - repeat split; try discriminate; congruence.
  - destruct (glob_tex d) as [|f files];
      cbn [fst snd run_log run_written app].
    + repeat split; try discriminate; try congruence.
      now exists [Warning_no_files].
    + repeat split; try discriminate; try congruence.
      rewrite process_all_log. cbn [run_log app].
      now exists (Info_found (length (f :: files))
                  :: flat_map (file_entries chain) (f :: files)).
Qed.

Lemma run_outcome_witness :
  main_with chain_with_failure "./tex"
    {| chdir := Some (OSError "No such file or directory");
       glob_tex := [a_tex] |}
  = ({| run_log := [Error_directory (OSError "No such file or directory")];
        run_written := [] |}, Exited 1).
Proof.
  destruct (run_outcome chain_with_failure "./tex"
              {| chdir := Some (OSError "No such file or directory");
                 glob_tex := [a_tex] |}) as (H1 & _ & H3 & _).
  apply injective_projections; cbn [fst snd].
  - now apply H3.
  - apply H1. discriminate.
Defined.

(** * The menu script *)

Section MenuScript.

Import Scriptauswahl.

Lemma dict_get_set_same (V : Type) (key : string) (v : V) (d : dict V) :
  dict_get key (dict_set key v d) = Some v.
Proof.
  induction d as [|[k x] d IH]; cbn [dict_set dict_get].
  - now rewrite String.eqb_refl.
  - destruct (String.eqb key k) eqn:E; cbn [dict_get]; rewrite E; trivial.
Qed.

Lemma dict_get_set_other (V : Type) (key k : string) (v : V) (d : dict V) :
  key <> k -> dict_get key (dict_set k v d) = dict_get key d.
Proof.
  intros Hne. induction d as [|[k' x] d IH]; cbn [dict_set dict_get].
  - apply String.eqb_neq in Hne. now rewrite Hne.
  - destruct (String.eqb k k') eqn:E; cbn [dict_get].
    + apply String.eqb_eq in E. subst k'.
      apply String.eqb_neq in Hne. now rewrite Hne.
    + now rewrite IH.
Qed.

Lemma dict_get_absent (V : Type) (key : string) (d : dict V) :
  ~ In key (map fst d) -> dict_get key d = None.
Proof.
  induction d as [|[k x] d IH]; intros H; [reflexivity|].
  cbn [dict_get]. destruct (String.eqb key k) eqn:E.
  - apply String.eqb_eq in E. subst k. exfalso. apply H. now left.
  - apply IH. intros Hin. apply H. now right.
Qed.

Lemma keep_string_lists_fold (key : string) (config : dict yaml)
    (acc : dict (list string)) :
  NoDup (map fst config) ->
  dict_get key
    (fold_left
       (fun result kv =>
          match snd kv with
          | YList items =>
              match strings_of items with
              | Some strs => dict_set (fst kv) strs result
              | None => result
              end
          | YOther => result
          end) config acc)
  = match string_list key config with
    | Some strs => Some strs
    | None => dict_get key acc
    end.
Proof.
  revert acc. induction config as [|[k v] config IH]; intros acc Hnd.
  - reflexivity.
  - inversion Hnd as [|? ? Hk Hnd']; subst. cbn [fold_left fst snd].
    rewrite (IH _ Hnd'). unfold string_list. cbn [dict_get].
    destruct (String.eqb key k) eqn:E.
    + apply String.eqb_eq in E. subst k.
      rewrite (dict_get_absent _ _ _ Hk).
      destruct v as [items|]; [|reflexivity].
      destruct (strings_of items); [apply dict_get_set_same|reflexivity].
    + apply String.eqb_neq in E.
      destruct (dict_get key config) as [[items'|]|];
        try destruct (strings_of items'); trivial;
        (destruct v as [items|]; [|reflexivity];
         destruct (strings_of items); [now apply dict_get_set_other|reflexivity]).
Qed.

Lemma keep_string_lists_get (config : dict yaml) (key : string) :
  NoDup (map fst config) ->
  dict_get key (keep_string_lists config) = string_list key config.
Proof.
  intros Hnd. unfold keep_string_lists.
  rewrite (keep_string_lists_fold _ _ _ Hnd).
  now destruct (string_list key config).
Qed.

(** From a file that holds a mapping, [load_config] returns a dict that
    has a key exactly when the value of the key in the file is a list whose
    items are all strings (the empty list too), with these strings as its
    value; every other key is gone.  The keys of the mapping are
    distinct. *)
Theorem load_config_lookup (config : dict yaml) :
  NoDup (map fst config) ->
  exists CONFIG,
    load_config (Holding (Mapping config)) = Returns CONFIG
    /\ forall key, dict_get key CONFIG = string_list key config.
Proof.
  intros Hnd. exists (keep_string_lists config). split; [reflexivity|].
  intros key. now apply keep_string_lists_get.
Qed.

Lemma load_config_lookup_witness :
  exists CONFIG,
    load_config (Holding (Mapping sample_yaml)) = Returns CONFIG
    /\ dict_get "MAKE" CONFIG = Some ["make"%string]
    /\ dict_get "MAKE_CLEAN" CONFIG = Some []
    /\ dict_get "VERSION" CONFIG = None
    /\ dict_get "HTML_PANDOC" CONFIG = None.
Proof.
  assert (Hnd : NoDup (map fst sample_yaml))
    by (repeat constructor; cbn; intuition discriminate).
  destruct (load_config_lookup sample_yaml Hnd) as (CONFIG & Hload & Hget).
  exists CONFIG. split; [exact Hload|]. rewrite !Hget.
  split; [|split; [|split]]; reflexivity.
Defined.

Lemma find_none_iff (A : Type) (g : A -> bool) (l : list A) :
  find g l = None <-> Forall (fun y => g y = false) l.
Proof.
  induction l as [|a l IH]; cbn [find].
  - split; [constructor|reflexivity].
  - destruct (g a) eqn:E.
    + split; [discriminate|]. intros H. inversion H; congruence.
    + rewrite IH. split; [now constructor|]. intros H. now inversion H.
Qed.

Lemma find_first (A : Type) (g : A -> bool) (l : list A) (x : A) :
  find g l = Some x <->
  exists front back,
    l = front ++ x :: back /\ Forall (fun y => g y = false) front
    /\ g x = true.
Proof.
  induction l as [|a l IH]; cbn [find].
  - split; [discriminate|]. intros (front & back & H & _). now destruct front.
  - destruct (g a) eqn:E.
    + split.
      * intros [= <-]. exists [], l. now repeat split.
      * intros (front & back & H & Hf & _).
        destruct front as [|b front]; cbn [app] in H; injection H as <- _.
        -- reflexivity.
        -- inversion Hf; congruence.
    + rewrite IH. split.
      * intros (front & back & -> & Hf & Hx).
        exists (a :: front), back. repeat split; [now constructor|exact Hx].
      * intros (front & back & H & Hf & Hx).
        destruct front as [|b front]; cbn [app] in H; injection H as <- ->.
        -- congruence.
        -- exists front, back. repeat split; [now inversion Hf|exact Hx].
Qed.

Lemma find_pointwise (A : Type) (g h : A -> bool) (l : list A) :
  (forall a, g a = h a) -> find g l = find h l.
Proof.
  intros H. induction l as [|a l IH]; [reflexivity|].
  cbn [find]. now rewrite H, IH.
Qed.

(** The tables are built key by key: the first key that is missing raises
    its [KeyError]. *)
Lemma module_tables_find (CONFIG : dict (list string)) :
  match find (missing CONFIG) required_keys with
  | Some k => module_tables CONFIG = Raised (KeyError k)
  | None => exists c, module_tables CONFIG = Loaded c
  end.
Proof.
  unfold module_tables, subscript, required_keys, missing. cbn [find].
  repeat match goal with
    | |- match (if match ?x with _ => _ end then _ else _) with _ => _ end =>
        destruct x; [|reflexivity]
    end.
  eauto.
Qed.

Lemma module_start_mapping (config : dict yaml) :
  NoDup (map fst config) ->
  match find (fun key =>
                match string_list key config with
                | Some _ => false
                | None => true
                end) required_keys with
  | Some k => module_start (Holding (Mapping config)) = Raised (KeyError k)
  | None => exists c, module_start (Holding (Mapping config)) = Loaded c
  end.
Proof.
  intros Hnd. unfold module_start. cbn [load_config].
  pose proof (module_tables_find (keep_string_lists config)) as H.
  rewrite (find_pointwise _ (missing (keep_string_lists config))
             (fun key => match string_list key config with
                         | Some _ => false
                         | None => true
                         end)) in H; [exact H|].
  intros key. unfold missing. now rewrite keep_string_lists_get.
Qed.

Lemma present_iff (config : dict yaml) (l : list string) :
  Forall (fun key => match string_list key config with
                     | Some _ => false
                     | None => true
                     end = false) l
  <-> Forall (fun key => string_list key config <> None) l.
Proof.
  rewrite !Forall_forall. split; intros H key Hin; specialize (H key Hin);
    destruct (string_list key config); congruence.
Qed.

(** The script gets to its tables exactly when the file holds a mapping in
    which each of its twelve keys is a list of strings.  On a mapping it
    otherwise raises [KeyError] for the first of the twelve, in the order of
    the tables, that is missing or is not such a list; on a document that is
    no mapping it raises [AttributeError]; and what [open] or
    [yaml.safe_load] raise is raised as it is.  The keys of a mapping are
    distinct. *)
Theorem startup_needs_all_keys (file : config_file) :
  distinct_keys file ->
  ((exists c, module_start file = Loaded c) <->
   exists config,
     file = Holding (Mapping config)
     /\ Forall (fun key => string_list key config <> None) required_keys)
  /\ (forall k,
        module_start file = Raised (KeyError k) <->
        exists config front back,
          file = Holding (Mapping config)
          /\ required_keys = front ++ k :: back
          /\ Forall (fun key => string_list key config <> None) front
          /\ string_list k config = None)
  /\ (module_start file = Raised AttributeError <->
      file = Holding NotMapping)
  /\ (forall e, module_start file = Raised (Library e) <-> file = Failing e).
Proof.
  intros Hnd. destruct file as [e0|[config|]].
  - cbn [module_start load_config].
    split; [|split; [|split]]; try intros x; split;
      try discriminate; try congruence.
    + intros (c & H). discriminate.
    + intros (config & H & _). discriminate.
    + intros (config & front & back & H & _). discriminate.
  - cbn [distinct_keys] in Hnd.
    pose proof (module_start_mapping config Hnd) as H.
    set (g := fun key => match string_list key config with
                         | Some _ => false
                         | None => true
                         end) in H.
    destruct (find g required_keys) as [k0|] eqn:E.
    + apply find_first in E as Hfirst.
      destruct Hfirst as (front & back & Hsplit & Hfront & Hk0).
      split; [|split; [|split]].
      * split.
        -- intros (c & Hc). congruence.
        -- intros (config' & [= <-] & Hall). apply present_iff in Hall.
           apply find_none_iff in Hall. fold g in Hall. congruence.
      * intros k. split.
        -- intros Hk. rewrite H in Hk. injection Hk as <-.
           exists config, front, back. split; [reflexivity|].
           split; [exact Hsplit|]. split; [now apply present_iff|].
           unfold g in Hk0. now destruct (string_list k0 config).
        -- intros (config' & front' & back' & [= <-] & Hs' & Hf' & Hk').
           assert (E' : find g required_keys = Some k).
           { apply find_first. exists front', back'. split; [exact Hs'|].
             split; [now apply present_iff|]. unfold g. now rewrite Hk'. }
           rewrite H. congruence.
      * rewrite H. split; discriminate.
      * intros e. rewrite H. split; discriminate.
    + destruct H as (c & Hc). split; [|split; [|split]].
      * split; [|now exists c]. intros _. exists config.
        split; [reflexivity|]. apply present_iff. now apply find_none_iff.
      * intros k. split; [congruence|].
        intros (config' & front' & back' & [= <-] & Hs' & Hf' & Hk').
        assert (E' : find g required_keys = Some k).
        { apply find_first. exists front', back'. split; [exact Hs'|].
          split; [now apply present_iff|]. unfold g. now rewrite Hk'. }
        congruence.
      * rewrite Hc. split; discriminate.
      * intros e. rewrite Hc. split; discriminate.
  - cbn [module_start load_config].
    split; [|split; [|split]]; try intros x; split;
      try discriminate; try congruence.
    + intros (c & H). discriminate.
    + intros (config & H & _). discriminate.
    + intros (config & front & back & H & _). discriminate.
Qed.

Lemma startup_needs_all_keys_witness :
  (exists c, module_start (Holding (Mapping complete_yaml)) = Loaded c)
  /\ module_start (Holding (Mapping sample_yaml))
     = Raised (KeyError "LATEX_KONVERTIEREN")
  /\ module_start (Holding NotMapping) = Raised AttributeError
  /\ module_start (Failing OSError) = Raised (Library OSError).
Proof.
  assert (Hc : distinct_keys (Holding (Mapping complete_yaml)))
    by (repeat constructor; cbn; intuition discriminate).
  assert (Hs : distinct_keys (Holding (Mapping sample_yaml)))
    by (repeat constructor; cbn; intuition discriminate).
  split; [|split; [|split]].
  - apply (startup_needs_all_keys _ Hc). exists complete_yaml.
    split; [reflexivity|]. unfold required_keys.
    repeat (apply Forall_cons; [discriminate|]). constructor.
  - apply (startup_needs_all_keys _ Hs). exists sample_yaml, [].
    eexists. split; [reflexivity|]. split; [reflexivity|].
    split; [constructor|reflexivity].
  - now apply (startup_needs_all_keys (Holding NotMapping) I).
  - now apply (startup_needs_all_keys (Failing OSError) I).
Defined.

Section Combined.

Variable run : list (list string) -> list string -> call_outcome.
Variable c : commands.

Let K := LATEX_KONVERTIEREN c.
Let E := LATEX_ENTFERNEN c.
Let R := LATEX_SUCHEN_ERSETZEN c.
Let X := MAKE_XELATEX c.

(** The combined LaTeX processing runs its commands in the order convert,
    remove, search-and-replace, [rsync], [make xelatex], and stops after the
    first of the three LaTeX commands that fails; a failing [rsync] stops
    nothing.  It logs its completion exactly when the three LaTeX commands
    and [make xelatex] have succeeded, whatever [rsync] did. *)
Theorem kombinierte_latex_stops_at_failure (w : world) :
  let h := calls w in
  let okK := succeeded (run h K) in
  let okE := succeeded (run (h ++ [K]) E) in
  let okS := succeeded (run (h ++ [K; E]) R) in
  let okX := succeeded (run (h ++ [K; E; R; rsync_befehl]) X) in
  let w' := kombinierte_latex_verarbeitung run c w in
  calls w' =
    h ++ (if okK then
            if okE then
              if okS then [K; E; R; rsync_befehl; X] else [K; E; R]
            else [K; E]
          else [K])
  /\ exists entries,
       wlog w' = wlog w ++ Info_starte_kombi :: entries
       /\ (In Info_kombi_abgeschlossen entries <->
           okK && okE && okS && okX = true).
Proof.
  destruct w as [h l]. cbn zeta. cbn [calls wlog].
  unfold kombinierte_latex_verarbeitung, schritte_ausfuehren,
    verarbeite_alle_tex_dateien, sicherer_aufruf, log_add.
  fold K E R X. cbn [calls wlog].
  rewrite <- !app_assoc. cbn [app].
  destruct (run h K); cbn [succeeded calls wlog fst snd andb];
    rewrite <- ?app_assoc; cbn [app];
    try (split; [reflexivity|eexists; split; [reflexivity|];
         split; [cbn; intuition discriminate|discriminate]]).
  destruct (run (h ++ [K]) E); cbn [succeeded calls wlog fst snd andb];
    rewrite <- ?app_assoc; cbn [app];
    try (split; [reflexivity|eexists; split; [reflexivity|];
         split; [cbn; intuition discriminate|discriminate]]).
  destruct (run (h ++ [K; E]) R); cbn [succeeded calls wlog fst snd andb];
    rewrite <- ?app_assoc; cbn [app];
    try (split; [reflexivity|eexists; split; [reflexivity|];
         split; [cbn; intuition discriminate|discriminate]]).
  destruct (run (h ++ [K; E; R]) rsync_befehl);
    cbn [succeeded calls wlog fst snd andb];
    rewrite <- ?app_assoc; cbn [app];
    destruct (run (h ++ [K; E; R; rsync_befehl]) X);
    cbn [succeeded calls wlog fst snd andb];
    rewrite <- ?app_assoc; cbn [app];
    (split; [reflexivity|eexists; split; [reflexivity|];
     split; [cbn; intuition discriminate|intros _; cbn; tauto]])
    || (split; [reflexivity|eexists; split; [reflexivity|];
        split; [cbn; intuition discriminate|discriminate]]).
Qed.

(** The combined HTML processing runs its three commands, in their order,
    whether or not one of them fails. *)
Theorem kombinierte_html_runs_all (w : world) :
  calls (kombinierte_html_verarbeitung run c w) =
    calls w ++ [HTML_PANDOC c; HTML_NAVIGATION c; HTML_ENTFERNEN c].
Proof.
  assert (Hcall : forall b v,
             calls (fst (sicherer_aufruf run b v)) = calls v ++ [b]).
  { intros b v. unfold sicherer_aufruf, log_add.
    destruct (run (calls v) b); reflexivity. }
  unfold kombinierte_html_verarbeitung. cbn [fold_left].
  rewrite !Hcall, <- !app_assoc. reflexivity.
Qed.

End Combined.

End MenuScript.
